(** * OSASocket: remote control of an optical spectrum analyser

    A shallow embedding of [OSASocket.py]: the [OSA] class (login
    handshake, [send]/[recv], and the command catalogue [reset], [sweep],
    [span], [level], [trace], [saveFile]) and the helper [double2expStr].

    - Python text ([str]) is a sequence of Unicode code points, bytes are
      [Byte.byte]; [str.encode()] / [bytes.decode()] are UTF-8.
    - Python floats are IEEE 754 binary64 numbers, taken from the
      executable specification [SpecFloat] of the standard library.
    - The socket and the console are an explicit world that every method
      threads through; exceptions and process exit are results.
    - [OSA.send] encodes its text before it calls [socket.send]; the
      catalogue methods call [socket.send] on the text itself.  A socket
      takes bytes only: given [Bytes] the transport answers with a count
      and the world logs the payload, given [Text] the call raises
      [TypeError] and nothing is written. *)

From Stdlib Require Import ZArith List String Ascii Lia Bool.
From Stdlib.Strings Require Import Byte.
From Stdlib Require Import SpecFloat DecimalString QArith Qpower Lqa.
Import ListNotations.

Open Scope Z_scope.

(** ** Text *)

Module Text.

(** A Python [str]: its code points, in order. *)
Definition codepoint := N.
Definition pystr := list codepoint.

(** A string literal of the source (all of them are ASCII). *)
Definition lit (s : string) : pystr :=
  List.map N_of_ascii (list_ascii_of_string s).

(** [str(n)] for an [int]. *)
Definition str_int (z : Z) : pystr :=
  lit (NilZero.string_of_int (Z.to_int z)).

(** [s[:n]] for [n >= 0]. *)
Definition prefix (n : nat) (s : pystr) : pystr := firstn n s.

Definition eqb (s t : pystr) : bool :=
  if list_eq_dec N.eq_dec s t then true else false.

(** [s in l] for a list of strings. *)
Definition mem (s : pystr) (l : list pystr) : bool := existsb (eqb s) l.

(** [needle in s]: substring test. *)
Fixpoint starts_with (p s : pystr) : bool :=
  match p, s with
  | [], _ => true
  | _ :: _, [] => false
  | a :: p', b :: s' => N.eqb a b && starts_with p' s'
  end.

Fixpoint contains (needle s : pystr) : bool :=
  starts_with needle s ||
  match s with
  | [] => false
  | _ :: s' => contains needle s'
  end.

(** [str.upper] on text whose letters are ASCII: the runtime's [upper]
    agrees with it on such text. *)
Definition upper_ascii (s : pystr) : pystr :=
  List.map (fun c => if (97 <=? c)%N && (c <=? 122)%N then (c - 32)%N else c) s.

(** *** UTF-8, the default codec of [encode] and [decode] *)

Definition byte_of_N (n : N) : byte :=
  match Byte.of_N n with Some b => b | None => x00 end.

Definition is_surrogate (c : codepoint) : bool :=
  (N.leb 55296 c && N.leb c 57343)%N.

(** One code point; [None] is [UnicodeEncodeError] (a lone surrogate). *)
Definition encode_cp (c : codepoint) : option (list byte) :=
  (if c <? 128 then Some [byte_of_N c]
   else if c <? 2048 then
     Some [byte_of_N (192 + c / 64); byte_of_N (128 + c mod 64)]
   else if is_surrogate c then None
   else if c <? 65536 then
     Some [byte_of_N (224 + c / 4096); byte_of_N (128 + (c / 64) mod 64);
           byte_of_N (128 + c mod 64)]
   else if c <? 1114112 then
     Some [byte_of_N (240 + c / 262144); byte_of_N (128 + (c / 4096) mod 64);
           byte_of_N (128 + (c / 64) mod 64); byte_of_N (128 + c mod 64)]
   else None)%N.

Fixpoint encode (s : pystr) : option (list byte) :=
  match s with
  | [] => Some []
  | c :: s' =>
      match encode_cp c, encode s' with
      | Some b, Some bs => Some (b ++ bs)
      | _, _ => None
      end
  end.

Definition is_cont (b : byte) : bool :=
  (N.leb 128 (Byte.to_N b) && N.ltb (Byte.to_N b) 192)%N.

Definition cont (b : byte) : N := (Byte.to_N b - 128)%N.

(** Strict decoding; [None] is [UnicodeDecodeError] (a stray or missing
    continuation byte, an overlong form, a surrogate, a value past
    U+10FFFF). *)
Fixpoint decode (bs : list byte) : option pystr :=
  match bs with
  | [] => Some []
  | b0 :: r0 =>
      let n0 := Byte.to_N b0 in
      if (n0 <? 128)%N then option_map (cons n0) (decode r0)
      else if (n0 <? 194)%N then None
      else if (n0 <? 224)%N then
        match r0 with
        | b1 :: r1 =>
            if is_cont b1
            then option_map (cons ((n0 - 192) * 64 + cont b1)%N) (decode r1)
            else None
        | _ => None
        end
      else if (n0 <? 240)%N then
        match r0 with
        | b1 :: b2 :: r2 =>
            let c := ((n0 - 224) * 4096 + cont b1 * 64 + cont b2)%N in
            if is_cont b1 && is_cont b2 && (2048 <=? c)%N
               && negb (is_surrogate c)
            then option_map (cons c) (decode r2)
            else None
        | _ => None
        end
      else if (n0 <? 245)%N then
        match r0 with
        | b1 :: b2 :: b3 :: r3 =>
            let c := ((n0 - 240) * 262144 + cont b1 * 4096
                      + cont b2 * 64 + cont b3)%N in
            if is_cont b1 && is_cont b2 && is_cont b3
               && (65536 <=? c)%N && (c <? 1114112)%N
            then option_map (cons c) (decode r3)
            else None
        | _ => None
        end
      else None
  end.

End Text.

Import Text.

(** ** Floats *)

Module PyFloat.

Definition prec : Z := 53.
Definition emax : Z := 1024.

Definition float := spec_float.

(** The float of an integer literal (exact below [2^53]). *)
Definition of_Z (z : Z) : float := binary_normalize prec emax z 0 false.

Definition zero : float := S754_zero false.
Definition ten : float := Eval vm_compute in of_Z 10.

Definition valid (x : float) : bool := valid_binary prec emax x.

Definition is_finite (x : float) : bool :=
  match x with
  | S754_zero _ | S754_finite _ _ _ => true
  | _ => false
  end.

Definition ltb (x y : float) : bool := SFltb x y.
Definition leb (x y : float) : bool := SFleb x y.
Definition abs (x : float) : float := SFabs x.
Definition div (x y : float) : float := SFdiv prec emax x y.

(** *** [repr] of a float: the shortest decimal that reads back as the
    same float, the nearest to it among those. *)

(** [a * 2^i * 10^j ?= b * 2^k * 10^l], all exponents in [Z]. *)
Definition cmp_scaled (a i j b k l : Z) : comparison :=
  let i0 := Z.min i k in
  let j0 := Z.min j l in
  (a * 2 ^ (i - i0) * 10 ^ (j - j0)) ?= (b * 2 ^ (k - i0) * 10 ^ (l - j0)).

(** [floor (m * 2^e / 10^j)]. *)
Definition floor_scaled (m e j : Z) : Z :=
  (m * 2 ^ Z.max e 0 * 10 ^ Z.max (- j) 0)
  / (2 ^ Z.max (- e) 0 * 10 ^ Z.max j 0).

(** The greatest [p] with [10^p <= m * 2^e], searched upwards. *)
Fixpoint log10_from (fuel : nat) (m e p : Z) : Z :=
  match fuel with
  | O => p
  | S fuel' =>
      match cmp_scaled 1 0 (p + 1) m e 0 with
      | Gt => p
      | _ => log10_from fuel' m e (p + 1)
      end
  end.

Definition floor_log10 (m e : Z) : Z :=
  log10_from 8 m e ((e + Z.log2 m) * 30103 / 100000 - 2).

(** Does [c * 10^j] round to the float [m * 2^e]?  The bounds are the
    midpoints to the neighbouring floats, in quarters of the unit in the
    last place; they belong to the interval when [m] is even. *)
Definition rounds_to (m e c j : Z) : bool :=
  let below :=
    if (m =? 2 ^ (prec - 1)) && (emin prec emax <? e) then 1 else 2 in
  match cmp_scaled (4 * m - below) (e - 2) 0 c 0 j,
        cmp_scaled c 0 j (4 * m + 2) (e - 2) 0 with
  | Lt, Lt => true
  | Gt, _ | _, Gt => false
  | _, _ => Z.even m
  end.

(** The shortest digits: [(c, j)] stands for [c * 10^j]. *)
Fixpoint shortest_from (fuel : nat) (m e p n : Z) : Z * Z :=
  let j := p - n + 1 in
  let lo := floor_scaled m e j in
  let hi := lo + 1 in
  match fuel with
  | O => (lo, j)
  | S fuel' =>
      match rounds_to m e lo j, rounds_to m e hi j with
      | true, false => (lo, j)
      | false, true => (hi, j)
      | true, true =>
          match cmp_scaled (2 * m) e 0 (2 * lo + 1) 0 j with
          | Lt => (lo, j)
          | Gt => (hi, j)
          | Eq => if Z.even lo then (lo, j) else (hi, j)
          end
      | false, false => shortest_from fuel' m e p (n + 1)
      end
  end.

Definition shortest (m e : Z) : Z * Z :=
  shortest_from 17 m e (floor_log10 m e) 1.

Fixpoint strip_zeros (fuel : nat) (c j : Z) : Z * Z :=
  match fuel with
  | O => (c, j)
  | S fuel' =>
      if (c mod 10 =? 0) && (0 <? c) then strip_zeros fuel' (c / 10) (j + 1)
      else (c, j)
  end.

Definition zeros (n : Z) : pystr := repeat 48%N (Z.to_nat n).

(** The exponent of the [e] notation: a sign and two digits at least. *)
Definition exp_digits (x : Z) : pystr :=
  lit (if x <? 0 then "-" else "+")
  ++ (if Z.abs x <? 10 then lit "0" else [])
  ++ str_int (Z.abs x).

Definition repr_pos (m e : Z) : pystr :=
  let '(c0, j0) := shortest m e in
  let '(c, j) := strip_zeros 20 c0 j0 in
  let ds := str_int c in
  let nd := Z.of_nat (List.length ds) in
  let decpt := nd + j in
  if (decpt <=? -4) || (16 <? decpt) then
    firstn 1 ds
    ++ (if 1 <? nd then lit "." ++ skipn 1 ds else [])
    ++ lit "e" ++ exp_digits (decpt - 1)
  else if decpt <=? 0 then lit "0." ++ zeros (- decpt) ++ ds
  else if nd <=? decpt then ds ++ zeros (decpt - nd) ++ lit ".0"
  else firstn (Z.to_nat decpt) ds ++ lit "." ++ skipn (Z.to_nat decpt) ds.

(** [str(x)] for a float, which is [repr(x)]. *)
Definition str (x : float) : pystr :=
  match x with
  | S754_nan => lit "nan"
  | S754_infinity s => lit (if s then "-inf" else "inf")
  | S754_zero s => lit (if s then "-0.0" else "0.0")
  | S754_finite s m e =>
      (if s then lit "-" else []) ++ repr_pos (Zpos m) e
  end.

(** The float [1.0]. *)
Definition one : float := Eval vm_compute in of_Z 1.

(** The rational a finite float stands for. *)
Definition Q_of_float (x : float) : Q :=
  match x with
  | S754_finite s m e =>
      ((if s then -1 else 1) * inject_Z (Zpos m) * (2 # 1) ^ e)%Q
  | _ => 0%Q
  end.

End PyFloat.

Import PyFloat.

(** ** The value encoder *)

Module Encoder.

(** [while digit > 10: e += 1; digit /= 10].  The loop has no bound of its
    own; [None] is a run that has not left it after [fuel] tests. *)
Fixpoint exp_loop (fuel : nat) (e : Z) (digit : float) : option (Z * float) :=
  match fuel with
  | O => None
  | S fuel' =>
      if ltb ten digit then exp_loop fuel' (e + 1) (div digit ten)
      else Some (e, digit)
  end.

(** [digit] is a float, as the name of the function has it. *)
Definition double2expStr (fuel : nat) (digit : float) : option pystr :=
  let flag := if ltb digit zero then lit "-" else [] in
  let digit := abs digit in
  if ltb digit ten then Some (str digit)
  else
    let e := 1 in
    let digit := div digit ten in
    match exp_loop fuel e digit with
    | Some (e, digit) => Some (flag ++ str digit ++ lit "E" ++ str_int e)
    | None => None
    end.

(** [digit] after [n] executions of [digit /= 10]. *)
Fixpoint div10_iter (n : nat) (digit : float) : float :=
  match n with
  | O => digit
  | S n' => div10_iter n' (div digit ten)
  end.

(** The sign prefix the exponent branch uses. *)
Definition sign_flag (digit : float) : pystr :=
  if ltb digit zero then lit "-" else [].

(** [q] to the power [n]. *)
Fixpoint qpow (q : Q) (n : nat) : Q :=
  match n with
  | O => 1%Q
  | S n' => (q * qpow q n')%Q
  end.

(** Half a unit in the last place of a normal float, relative to it: [2^-53]. *)
Definition roundoff : Q := 1 # 9007199254740992.

(** [m * 10^n] is [x] up to [n] roundings: each [digit /= 10] moves the
    value by at most [roundoff], relative to the quotient. *)
Definition reconstructs (n : nat) (m x : float) : Prop :=
  (qpow (1 - roundoff) n * (qpow 10 n * Q_of_float m) <= Q_of_float x
   /\ Q_of_float x <= qpow (1 + roundoff) n * (qpow 10 n * Q_of_float m))%Q.

End Encoder.

Import Encoder.

(** ** The world: the socket and the console *)

Module World.

(** What a call of [socket.send] is given: text as it is, or bytes. *)
Inductive payload :=
| Text (s : pystr)
| Bytes (b : list byte).

Definition payload_len (p : payload) : nat :=
  match p with
  | Text s => List.length s
  | Bytes b => List.length b
  end.

Inductive connect_result := Connected | ConnectTimedOut | ConnectRefused.

(** The peer and the network, as seen from the client. *)
Record transport := {
  tr_connect : connect_result;
  (** the count that the [n]-th call of [socket.send] returns *)
  tr_accept : nat -> payload -> nat
}.

Record world := {
  sent : list payload;        (** what [socket.send] has taken, oldest first *)
  inbox : list (list byte);   (** segments the peer delivers, next first *)
  console : list pystr        (** lines written to standard output *)
}.

Inductive exn :=
| SystemExit
| NameError (name : string)
| KeyError
| UnicodeEncodeError
| UnicodeDecodeError
| SocketTimeout
| TypeError.

Inductive result (A : Type) :=
| Ok (a : A)
| Raise (e : exn)
| Hang.
Arguments Ok {A} a.
Arguments Raise {A} e.
Arguments Hang {A}.

Definition M (A : Type) : Type := world -> result A * world.

Definition ret {A} (a : A) : M A := fun w => (Ok a, w).

Definition bind {A B} (c : M A) (k : A -> M B) : M B :=
  fun w =>
    match c w with
    | (Ok a, w') => k a w'
    | (Raise e, w') => (Raise e, w')
    | (Hang, w') => (Hang, w')
    end.

Definition raise {A} (e : exn) : M A := fun w => (Raise e, w).
Definition hang {A} : M A := fun w => (Hang, w).

Definition print (line : pystr) : M unit :=
  fun w => (Ok tt, {| sent := sent w; inbox := inbox w;
                      console := console w ++ [line] |}).

End World.

Import World.

Declare Scope py_scope.
Delimit Scope py_scope with py.
Notation "x <- c ;; k" := (bind c (fun x => k))
  (at level 61, c at next level, right associativity) : py_scope.
Notation "c ;; k" := (bind c (fun _ => k))
  (at level 61, right associativity) : py_scope.
Open Scope py_scope.

(** ** The class [OSA] *)

Section OSA.

(** The network the client runs against. *)
Variable tr : transport.

(** [str.upper], the built-in of the runtime. *)
Variable upper : pystr -> pystr.

Definition dquote : pystr := [34%N].

(** [self.__osa.send(data)].  The socket wants a bytes-like object: a
    [str] is refused with [TypeError] before anything is written. *)
Definition sock_send (data : payload) : M nat :=
  fun w =>
    match data with
    | Text _ => (Raise TypeError, w)
    | Bytes _ =>
        (Ok (tr_accept tr (List.length (sent w)) data),
         {| sent := sent w ++ [data]; inbox := inbox w;
            console := console w |})
    end.

(** [self.__osa.recv(bufsize)]: at most [bufsize] bytes of the next
    segment; what is left of it stays for the next call.  With nothing
    to read the call times out. *)
Definition sock_recv (bufsize : nat) : M (list byte) :=
  fun w =>
    match inbox w with
    | [] => (Raise SocketTimeout, w)
    | seg :: rest =>
        (Ok (firstn bufsize seg),
         {| sent := sent w;
            inbox := match skipn bufsize seg with
                     | [] => rest
                     | more => more :: rest
                     end;
            console := console w |})
    end.

(** [exitWin()]: the prompt of [input], then [exit()].  The key that
    [input] waits for is not part of the world. *)
Definition exitWin {A} : M A :=
  print (lit "Enter any key to exit...") ;; raise SystemExit.

Definition recv (bufsize : nat) : M pystr :=
  data <- sock_recv bufsize ;;
  match decode data with
  | Some s => ret s
  | None => raise UnicodeDecodeError
  end.

Definition send (sendStr : pystr) : M unit :=
  match encode sendStr with
  | None => raise UnicodeEncodeError
  | Some data =>
      strLen <- sock_send (Bytes data) ;;
      if Nat.eqb strLen (List.length sendStr)
      then print (lit "Command " ++ dquote ++ sendStr ++ dquote
                  ++ lit " sent successfully")
      else print (lit "Command sent uncompletely")
  end.

Definition __init__ (username password : pystr) : M unit :=
  match tr_connect tr with
  | Connected =>
      print (lit "Successfully connected to the optical spectrum analyser")
  | ConnectTimedOut =>
      print (lit "ERROR: Cannot connect to the optical spectrum analyser") ;;
      exitWin
  | ConnectRefused =>
      print (lit "Unexpected Error! Check the IP and port and the connection") ;;
      exitWin
  end ;;
  send (lit "open " ++ dquote ++ username ++ dquote) ;;
  greeting <- recv 1024 ;;
  print greeting ;;
  send password ;;
  recStr <- recv 1024 ;;
  if eqb (prefix 5 recStr) (lit "ready")
  then print (lit "User authenticated.")
  else print (lit "User authentication error") ;; exitWin.

Definition reset : M unit := send (lit "*RST").

(** The modes [sweep] lets through.  The source writes
    ['SINGLE' '3'], two adjacent literals, which is one string. *)
Definition sweep_modes : list pystr :=
  [lit "AUTO"; lit "REPEAT"; lit "SINGLE" ++ lit "3"; lit "2"; lit "1"].

Definition sweep (sweepMode : pystr) : M unit :=
  if mem (upper sweepMode) sweep_modes
  then sock_send (Text (lit ":INITIATE:SMODE " ++ sweepMode)) ;;
       sock_send (Text (lit ":INITIATE")) ;;
       ret tt
  else print (lit "unsuitable sweep mode").

Definition span (start stop : Z) : M unit :=
  sock_send (Text (lit ":SENSE:WAVELENGTH:START " ++ str_int start ++ lit "NM")) ;;
  sock_send (Text (lit ":SENSE:WAVELENGTH:STOP " ++ str_int stop ++ lit "NM")) ;;
  ret tt.

(** A call of [double2expStr] inside a method. *)
Definition expStr (fuel : nat) (digit : float) : M pystr :=
  match double2expStr fuel digit with
  | Some s => ret s
  | None => hang
  end.

Definition level (fuel : nat) (refLevel logScale : float)
    (autoRefLevel : bool) (subLog offsetLevel : float)
    (autoSubScale : bool) : M unit :=
  s <- expStr fuel logScale ;;
  sock_send (Text (lit ":DISPLAY:WINDOW:TRACE:Y1:SCALE:PDIVISION " ++ s)) ;;
  (if autoRefLevel
   then sock_send (Text (lit "CALCULATE:MARKER:MAXIMUM:SRLEVEL:AUTO"))
   else s <- expStr fuel logScale ;;
        sock_send (Text (lit ":DISPLAY:WINDOW:Y1:SCALE:RELVEL " ++ s))) ;;
  s <- expStr fuel subLog ;;
  sock_send (Text (lit ":DISPLAY:WINDOW:TRACE:Y2:SCALE:PDIVISION " ++ s)) ;;
  if autoSubScale
  then sock_send (Text (lit ":DISPLAY:WINDOW:TRACE:Y2:SCALE:AUTO ON")) ;;
       ret tt
  else sock_send (Text (lit ":DISPLAY:WINDOW:TRACE:Y2:SCALE:AUTO OFF")) ;;
       s <- expStr fuel offsetLevel ;;
       sock_send (Text (lit ":DISPLAY:WINDOW:TRACE:Y2:SCALE:OLEVEL " ++ s)) ;;
       ret tt.

Definition setup : M unit := ret tt.

Definition trace_channels : list pystr :=
  [lit "A"; lit "B"; lit "C"; lit "D"; lit "E"; lit "F"; lit "G"].

(** The table of [trace]: [calcMode]. *)
Definition calcMode : list (Z * pystr) :=
  [(1, lit "A-B (LOG)"); (2, lit "B-A (LOG)"); (3, lit "A+B (LOG)")].

(** Reading the name [calc], which neither [trace] nor the module binds. *)
Definition calc : M Z := raise (NameError "calc").

(** [d[k]] for a dictionary. *)
Definition subscript (d : list (Z * pystr)) (k : Z) : M pystr :=
  match find (fun kv => Z.eqb (fst kv) k) d with
  | Some kv => ret (snd kv)
  | None => raise KeyError
  end.

Definition trace (channel : pystr) (write disp : bool) (calcC : Z) : M unit :=
  let channel := upper channel in
  (if negb (mem channel trace_channels)
   then print (lit "Unsuitable channel") else ret tt) ;;
  sock_send (Text (lit ":TRACE:ACTIVE TR" ++ channel)) ;;
  let switch := if disp then lit "ON" else lit "OFF" in
  sock_send (Text (lit ":TRACE:STATE:TR" ++ channel ++ lit " " ++ switch)) ;;
  if negb (calcC =? 0)
  then k <- calc ;;
       mode <- subscript calcMode k ;;
       sock_send (Text (lit ":CALCULATE:MATH:TRC " ++ mode)) ;;
       ret tt
  else ret tt.

Definition save_channels : list pystr := [lit "A"; lit "B"; lit "C"].

Definition saveFile (filename form channel memory : pystr) : M unit :=
  let channel := upper channel in
  (if negb (mem channel save_channels)
   then print (lit "Unsuitable channel") else ret tt) ;;
  sock_send (Text (lit ":MMEMORY:STORE:TRACE TR" ++ channel ++ lit "," ++ form
                   ++ dquote ++ filename ++ dquote ++ lit "," ++ memory)) ;;
  ret tt.

End OSA.

(** ** What a run shows *)

(** The constructor returned, having greeted the user as authenticated. *)
Definition authenticated (run : result unit * world) : Prop :=
  fst run = Ok tt
  /\ exists before, console (snd run) = before ++ [lit "User authenticated."].

(** The constructor reported the authentication error and left through
    [exitWin]. *)
Definition authentication_failed (run : result unit * world) : Prop :=
  fst run = Raise SystemExit
  /\ exists before,
       console (snd run)
       = before ++ [lit "User authentication error";
                    lit "Enter any key to exit..."].

(** The line [send] prints for a write it takes as complete. *)
Definition sent_line (sendStr : pystr) : pystr :=
  lit "Command " ++ dquote ++ sendStr ++ dquote ++ lit " sent successfully".

(** A network that takes every payload whole. *)
Definition whole : transport :=
  {| tr_connect := Connected; tr_accept := fun _ p => payload_len p |}.

(** A network that takes two units of every payload. *)
Definition two_at_a_time : transport :=
  {| tr_connect := Connected; tr_accept := fun _ _ => 2%nat |}.

Definition quiet : world := {| sent := []; inbox := []; console := [] |}.

(** ** Positions between two floats *)

(** Where the exact quotient [q + r / T] lies between [q] and [q + 1]. *)
Definition loc_frac (l : location) (r T : Z) : Prop :=
  match l with
  | loc_Exact => r = 0
  | loc_Inexact c => 0 < r /\ (2 * r ?= T) = c
  end.

(** ** More vocabulary *)

(** Text all of whose characters are ASCII. *)
Definition ascii_text (s : pystr) : Prop := Forall (fun c => (c < 128)%N) s.

(** A code point that UTF-8 has no form for: a surrogate, or past U+10FFFF. *)
Definition unencodable (c : codepoint) : Prop :=
  is_surrogate c = true \/ (1114112 <= c)%N.

(** The line [send] prints for a write of [n] units of [sendStr]. *)
Definition report (n : nat) (sendStr : pystr) : pystr :=
  if Nat.eqb n (List.length sendStr) then sent_line sendStr
  else lit "Command sent uncompletely".

(** The command that carries the user name. *)
Definition open_command (username : pystr) : pystr :=
  lit "open " ++ dquote ++ username ++ dquote.

Lemma bind_raise {A B} (c : M A) (k : A -> M B) (w w' : world) (e : exn) :
  c w = (Raise e, w') -> bind c k w = (Raise e, w').
Proof. intros H. unfold bind. rewrite H. reflexivity. Qed.

(** The two infinities. *)
Definition is_infinite (x : float) : bool :=
  match x with
  | S754_infinity _ => true
  | _ => false
  end.

(** A world in which the peer has sent [hello]. *)
Definition hello_world : world :=
  {| sent := []; inbox := [list_byte_of_string "hello"]; console := [] |}.

(** A network on which the connection attempt times out. *)
Definition unreachable : transport :=
  {| tr_connect := ConnectTimedOut; tr_accept := fun _ p => payload_len p |}.

(** A world in which the peer answers [hello], then [reply]. *)
Definition greeted (reply : string) : world :=
  {| sent := [];
     inbox := [list_byte_of_string "hello"; list_byte_of_string reply];
     console := [] |}.

(** * Properties *)

(** ** Binary64 mantissas *)

Lemma digits2_size (p : positive) : digits2_pos p = Pos.size p.
Proof. induction p; simpl; congruence. Qed.

Lemma Zdigits2_log2 (p : positive) : Zdigits2 (Zpos p) = Z.log2 (Zpos p) + 1.
Proof.
  unfold Zdigits2. rewrite digits2_size.
  destruct p as [p|p|]; simpl; try reflexivity; rewrite Pos.add_1_r; reflexivity.
Qed.

Lemma Zdigits2_unique (q k : Z) :
  0 < k -> 2 ^ (k - 1) <= q < 2 ^ k -> Zdigits2 q = k.
Proof.
  intros Hk [Hlo Hhi].
  assert (0 < q) by (pose proof (Z.pow_pos_nonneg 2 (k - 1)); lia).
  destruct q as [|p|p]; try lia.
  rewrite Zdigits2_log2.
  rewrite (Z.log2_unique (Zpos p) (k - 1)); try lia.
  replace (Z.succ (k - 1)) with k by lia. lia.
Qed.

Lemma Zdigits2_bounds (p : positive) :
  2 ^ (Zdigits2 (Zpos p) - 1) <= Zpos p < 2 ^ Zdigits2 (Zpos p).
Proof.
  rewrite Zdigits2_log2.
  replace (Z.log2 (Zpos p) + 1 - 1) with (Z.log2 (Zpos p)) by lia.
  pose proof (Z.log2_spec (Zpos p) eq_refl) as H.
  replace (Z.log2 (Zpos p) + 1) with (Z.succ (Z.log2 (Zpos p))) by lia.
  exact H.
Qed.

(** A finite float in normal form, at an exponent where the mantissa is full. *)
Lemma bounded_normal (m : positive) (e : Z) :
  bounded prec emax m e = true -> -1074 < e ->
  4503599627370496 <= Zpos m < 9007199254740992 /\ e <= 971.
Proof.
  unfold bounded, canonical_mantissa, fexp, SpecFloat.emin, prec, emax.
  intros H He. apply andb_prop in H as [Hc Hb].
  apply Z.eqb_eq in Hc. apply Z.leb_le in Hb.
  assert (Hd : Zdigits2 (Zpos m) = 53) by (simpl; lia).
  pose proof (Zdigits2_bounds m) as B. rewrite Hd in B.
  change (2 ^ (53 - 1)) with 4503599627370496 in B.
  change (2 ^ 53) with 9007199254740992 in B. lia.
Qed.

Lemma normal_bounded (m : positive) (e : Z) :
  4503599627370496 <= Zpos m < 9007199254740992 -> -1074 <= e <= 971 ->
  bounded prec emax m e = true.
Proof.
  intros Hm He.
  assert (Hd : Zdigits2 (Zpos m) = 53)
    by (apply Zdigits2_unique; [lia | exact Hm]).
  unfold bounded, canonical_mantissa, fexp, SpecFloat.emin, prec, emax.
  simpl in Hd. rewrite Hd.
  apply andb_true_intro; split; [apply Z.eqb_eq | apply Z.leb_le]; lia.
Qed.

(** ** Rounding to nearest *)

Lemma shr_fexp_keep (q e : Z) (l : location) :
  4503599627370496 <= q < 9007199254740992 -> -1074 <= e ->
  shr_fexp prec emax q e l = (shr_record_of_loc q l, e).
Proof.
  intros Hq He. unfold shr_fexp.
  rewrite (Zdigits2_unique q 53) by (try lia; exact Hq).
  unfold fexp, SpecFloat.emin, prec, emax.
  replace (Z.max (53 + e - 53) (3 - 1024 - 53) - e) with 0 by lia.
  reflexivity.
Qed.

Lemma shr_fexp_once (q e : Z) (l : location) :
  9007199254740992 <= q < 18014398509481984 -> -1075 <= e ->
  shr_fexp prec emax q e l = (shr_1 (shr_record_of_loc q l), e + 1).
Proof.
  intros Hq He. unfold shr_fexp.
  rewrite (Zdigits2_unique q 54) by (try lia; exact Hq).
  unfold fexp, SpecFloat.emin, prec, emax.
  replace (Z.max (54 + e - 53) (3 - 1024 - 53) - e) with 1 by lia.
  reflexivity.
Qed.

Lemma shr_m_of_loc (q : Z) (l : location) : shr_m (shr_record_of_loc q l) = q.
Proof. destruct l as [|[| |]]; reflexivity. Qed.

Lemma loc_of_shr_of_loc (q : Z) (l : location) :
  loc_of_shr_record (shr_record_of_loc q l) = l.
Proof. destruct l as [|[| |]]; reflexivity. Qed.

(** The last stage of rounding, on a mantissa that has 53 bits or is [2^53]. *)
Lemma round_finish (v e : Z) :
  4503599627370496 <= v <= 9007199254740992 -> -1074 <= e <= 970 ->
  exists m' e',
    (let '(mrs, e'') := shr_fexp prec emax v e loc_Exact in
     match shr_m mrs with
     | Z0 => S754_zero false
     | Zpos m => if e'' <=? emax - prec then S754_finite false m e''
                 else S754_infinity false
     | Zneg _ => S754_nan
     end) = S754_finite false m' e'
    /\ 4503599627370496 <= Zpos m' < 9007199254740992
    /\ ((e' = e /\ Zpos m' = v) \/ (e' = e + 1 /\ 2 * Zpos m' = v)).
Proof.
  intros Hv He.
  destruct (Z.eq_dec v 9007199254740992) as [->|Hne].
  - rewrite shr_fexp_once by lia. simpl shr_m. cbv iota.
    exists 4503599627370496%positive, (e + 1).
    replace (e + 1 <=? emax - prec) with true
      by (symmetry; apply Z.leb_le; unfold emax, prec; lia).
    repeat split; lia.
  - rewrite shr_fexp_keep by lia. simpl shr_m.
    destruct v as [|m|m]; try lia.
    exists m, e.
    replace (e <=? emax - prec) with true
      by (symmetry; apply Z.leb_le; unfold emax, prec; lia).
    repeat split; lia.
Qed.

Lemma new_location_frac (r T : Z) :
  Z.even T = true -> loc_frac (new_location T r) r T \/ r < 0.
Proof.
  intros HT. unfold new_location, new_location_even. rewrite HT.
  destruct (Z.eqb_spec r 0) as [->|Hr]; simpl; [left; reflexivity|].
  destruct (Z_lt_le_dec r 0); [right; assumption|left]. split; [lia|reflexivity].
Qed.

Ltac finish_with v e :=
  let m' := fresh "m'" in let e' := fresh "e'" in
  let Hm := fresh "Hm" in let Hk := fresh "Hk" in
  destruct (round_finish v e) as (m' & e' & -> & Hm & Hk); [lia | lia |];
  exists m', e'; split; [reflexivity|]; split; [exact Hm|];
  destruct Hk as [[-> Hk] | [-> Hk]].

(** Rounding to nearest, ties to even, of a quotient of 53 or 54 bits:
    the result is a normal float within half a unit in the last place. *)
Lemma round_aux_nearest (q e r : Z) (l : location) :
  let T := 5629499534213120 in
  4503599627370496 <= q < 18014398509481982 -> -1074 <= e <= 969 ->
  0 <= r < T -> loc_frac l r T ->
  exists m' e',
    binary_round_aux prec emax false q e l = S754_finite false m' e'
    /\ 4503599627370496 <= Zpos m' < 9007199254740992
    /\ ((e' = e /\ q < 9007199254740992
         /\ Z.abs (2 * (T * Zpos m' - (T * q + r))) <= T)
        \/ (e' = e + 1
            /\ Z.abs (T * (2 * Zpos m') - (T * q + r)) <= T)).
Proof.
  intros T Hq He Hr Hl. unfold binary_round_aux.
  destruct (Z_lt_le_dec q 9007199254740992) as [Hs|Hs].
  - rewrite shr_fexp_keep by lia.
    rewrite shr_m_of_loc, loc_of_shr_of_loc.
    destruct l as [|[| |]]; unfold loc_frac in Hl; simpl round_nearest_even.
    + finish_with q e; [left|right]; subst T; lia.
    + destruct Hl as [Hl1 Hl2]. apply Z.compare_eq in Hl2.
      destruct (Z.even q).
      * finish_with q e; [left|right]; subst T; lia.
      * finish_with (q + 1) e; [left|right]; subst T; lia.
    + destruct Hl as [Hl1 Hl2]. rewrite Z.compare_lt_iff in Hl2.
      finish_with q e; [left|right]; subst T; lia.
    + destruct Hl as [Hl1 Hl2]. rewrite Z.compare_gt_iff in Hl2.
      finish_with (q + 1) e; [left|right]; subst T; lia.
  - rewrite shr_fexp_once by lia.
    destruct q as [|[p|p|]|p]; try lia;
      destruct l as [|[| |]]; unfold loc_frac in Hl;
      cbn [shr_1 shr_record_of_loc shr_m shr_r shr_s loc_of_shr_record
           round_nearest_even orb];
      try destruct (Z.even (Z.pos p));
      match goal with
      | |- context [shr_fexp prec emax ?v ?e' loc_Exact] => finish_with v e'
      end; right; subst T; lia.
Qed.

(** ** Division by ten *)

Lemma div_core_ten (m : positive) (e : Z) :
  4503599627370496 <= Zpos m < 9007199254740992 -> -49 <= e ->
  SFdiv_core_binary prec emax (Zpos m) e 5629499534213120 (-49)
  = let '(q, r) := Z.div_eucl (Zpos m * 9007199254740992) 5629499534213120 in
    (q, e - 4, new_location 5629499534213120 r).
Proof.
  intros Hm He. unfold SFdiv_core_binary. cbv zeta.
  rewrite (Zdigits2_unique (Zpos m) 53) by (try lia; exact Hm).
  change (Zdigits2 5629499534213120) with 53.
  assert (E : Z.min (fexp prec emax (53 + e - (53 + -49))) (e - -49) = e - 4).
  { unfold fexp, SpecFloat.emin, prec, emax. lia. }
  rewrite E.
  replace (e - -49 - (e - 4)) with 53 by lia.
  cbv iota. rewrite Z.shiftl_mul_pow2 by lia.
  change (2 ^ 53) with 9007199254740992. reflexivity.
Qed.

(** One execution of [digit /= 10] on a float above the subnormal range:
    the quotient is again a normal float, two or three binary orders
    smaller... and the nearest float to the tenth. *)
Lemma div_ten_step (m : positive) (e : Z) :
  bounded prec emax m e = true -> -49 <= e ->
  exists m' e',
    div (S754_finite false m e) ten = S754_finite false m' e'
    /\ bounded prec emax m' e' = true
    /\ ((e' = e - 4 /\ Zpos m < 5629499534213120
         /\ Z.abs (10 * Zpos m' - 16 * Zpos m) <= 5)
        \/ (e' = e - 3 /\ Z.abs (10 * Zpos m' - 8 * Zpos m) <= 5)).
Proof.
  intros Hb He.
  destruct (bounded_normal m e Hb) as [Hm Hmax]; [lia|].
  unfold div, ten, SFdiv. rewrite div_core_ten by assumption.
  pose proof (Z_div_mod (Zpos m * 9007199254740992) 5629499534213120 eq_refl) as D.
  destruct (Z.div_eucl (Zpos m * 9007199254740992) 5629499534213120) as [q r].
  destruct D as [D Hr].
  destruct (new_location_frac r 5629499534213120 eq_refl) as [Hl|Hl]; [|lia].
  destruct (round_aux_nearest q (e - 4) r (new_location 5629499534213120 r))
    as (m' & e' & Hres & Hm' & Hk); try assumption; try lia.
  exists m', e'. change (xorb false false) with false. split; [exact Hres|].
  split.
  - apply normal_bounded; [exact Hm'|]. lia.
  - destruct Hk as [(-> & Hq & Hk) | (-> & Hk)]; [left|right];
      repeat split; lia.
Qed.

(** ** Comparisons with ten and one *)

Lemma compare_cont_Z (p q : positive) :
  Pos.compare_cont Eq p q = (Zpos p ?= Zpos q).
Proof.
  rewrite Pos.compare_cont_spec, <- Pos2Z.inj_compare.
  destruct (p ?= q)%positive; reflexivity.
Qed.

Lemma gt_ten_inv (m : positive) (e : Z) :
  ltb ten (S754_finite false m e) = true ->
  -49 <= e /\ (e = -49 -> 5629499534213120 < Zpos m).
Proof.
  unfold ltb, SFltb, SFcompare, ten. rewrite compare_cont_Z.
  destruct (Z.compare_spec (-49) e) as [E|E|E]; try discriminate.
  - destruct (Z.compare_spec 5629499534213120 (Zpos m)) as [L|L|L];
      intros H0; try discriminate H0. lia.
  - lia.
Qed.

Lemma ge_ten_inv (m : positive) (e : Z) :
  ltb (S754_finite false m e) ten = false ->
  -49 <= e /\ (e = -49 -> 5629499534213120 <= Zpos m).
Proof.
  unfold ltb, SFltb, SFcompare, ten. rewrite compare_cont_Z.
  destruct (Z.compare_spec e (-49)) as [E|E|E]; try discriminate.
  - destruct (Z.compare_spec (Zpos m) 5629499534213120) as [L|L|L];
      intros H0; try discriminate H0; lia.
  - lia.
Qed.

Lemma le_ten_intro (m : positive) (e : Z) :
  ltb ten (S754_finite false m e) = false ->
  leb (S754_finite false m e) ten = true.
Proof.
  unfold ltb, leb, SFltb, SFleb, SFcompare, ten. rewrite !compare_cont_Z.
  rewrite (Z.compare_antisym (Zpos m) 5629499534213120).
  rewrite (Z.compare_antisym e (-49)).
  destruct (e ?= -49); cbn [CompOpp];
    try reflexivity; try discriminate.
  destruct (Zpos m ?= 5629499534213120); cbn [CompOpp];
    try reflexivity; discriminate.
Qed.

Lemma ge_one_intro (m : positive) (e : Z) :
  4503599627370496 <= Zpos m -> -52 <= e ->
  leb one (S754_finite false m e) = true.
Proof.
  intros Hm He. unfold leb, SFleb, SFcompare, one. rewrite compare_cont_Z.
  destruct (Z.compare_spec (-52) e); try lia; try reflexivity.
  destruct (Z.compare_spec 4503599627370496 (Zpos m)) as [E|E|E];
    try reflexivity. lia.
Qed.

Lemma Qpow2_shift (e k : Z) : ((2 # 1) ^ (e + k) == (2 # 1) ^ e * (2 # 1) ^ k)%Q.
Proof. apply Qpower_plus. discriminate. Qed.

Lemma Qpow2_pos (e : Z) : (0 < (2 # 1) ^ e)%Q.
Proof. apply Qpower_0_lt. reflexivity. Qed.

(** The quotient of one division, against the exact tenth. *)
Lemma div_ten_accuracy (m m' : positive) (e e' : Z) :
  4503599627370496 <= Zpos m' ->
  (e' = e - 4 /\ Z.abs (10 * Zpos m' - 16 * Zpos m) <= 5)
  \/ (e' = e - 3 /\ Z.abs (10 * Zpos m' - 8 * Zpos m) <= 5) ->
  let x := Q_of_float (S754_finite false m e) in
  let x' := Q_of_float (S754_finite false m' e') in
  ((1 - roundoff) * (10 * x') <= x /\ x <= (1 + roundoff) * (10 * x'))%Q.
Proof.
  intros HM' H. unfold Q_of_float. cbv zeta.
  assert (E : exists c, (c = 16 \/ c = 8) /\ Z.abs (10 * Zpos m' - c * Zpos m) <= 5
              /\ ((2 # 1) ^ e == (2 # 1) ^ e' * inject_Z c)%Q).
  { destruct H as [[-> H] | [-> H]]; [exists 16 | exists 8];
      (split; [lia|]; split; [exact H|]).
    - replace e with (e - 4 + 4) at 1 by lia. rewrite Qpow2_shift. reflexivity.
    - replace e with (e - 3 + 3) at 1 by lia. rewrite Qpow2_shift. reflexivity. }
  destruct E as (c & Hc & Habs & E). rewrite E.
  pose proof (Qpow2_pos e') as HP.
  set (P := ((2 # 1) ^ e')%Q) in *.
  assert (H1 : 10 * Zpos m' <= c * Zpos m + 5) by lia.
  assert (H2 : c * Zpos m <= 10 * Zpos m' + 5) by lia.
  rewrite Zle_Qle in H1, H2, HM'.
  rewrite inject_Z_plus, !inject_Z_mult in H1, H2.
  set (a := inject_Z (Zpos m)) in *. set (b := inject_Z (Zpos m')) in *.
  set (k := inject_Z c) in *.
  unfold roundoff.
  change (inject_Z 10) with 10%Q in *. change (inject_Z 5) with 5%Q in *.
  change (inject_Z 4503599627370496) with 4503599627370496%Q in *.
  split; nra.
Qed.

(** ** The exponent loop *)

Lemma Qeq_le_sub (a b : Q) : (a == b)%Q -> (a <= b)%Q.
Proof. intros ->. apply Qle_refl. Qed.

Lemma Q_of_float_pos (m : positive) (e : Z) :
  (0 < Q_of_float (S754_finite false m e))%Q.
Proof.
  unfold Q_of_float. pose proof (Qpow2_pos e).
  assert (inject_Z 0 < inject_Z (Zpos m))%Q by (rewrite <- Zlt_Qlt; lia).
  change (inject_Z 0) with 0%Q in *.
  nra.
Qed.

Lemma qpow_nonneg (q : Q) (n : nat) : (0 <= q)%Q -> (0 <= qpow q n)%Q.
Proof. intros Hq. induction n; simpl; [lra | nra]. Qed.

Lemma reconstructs_step (n : nat) (d x' x : float) :
  (0 <= Q_of_float d)%Q ->
  ((1 - roundoff) * (10 * Q_of_float x') <= Q_of_float x
   /\ Q_of_float x <= (1 + roundoff) * (10 * Q_of_float x'))%Q ->
  reconstructs n d x' -> reconstructs (S n) d x.
Proof.
  unfold reconstructs. intros Hd [S1 S2] [R1 R2]. simpl qpow.
  assert (Hlo : (0 <= qpow (1 - roundoff) n)%Q)
    by (apply qpow_nonneg; unfold roundoff; lra).
  assert (Hhi : (0 <= qpow (1 + roundoff) n)%Q)
    by (apply qpow_nonneg; unfold roundoff; lra).
  assert (Hten : (0 <= qpow 10 n)%Q) by (apply qpow_nonneg; lra).
  set (lo := qpow (1 - roundoff) n) in *.
  set (hi := qpow (1 + roundoff) n) in *.
  set (t := qpow 10 n) in *.
  set (qd := Q_of_float d) in *. set (qx := Q_of_float x) in *.
  set (qx' := Q_of_float x') in *.
  assert (0 <= t * qd)%Q by nra.
  set (p := (t * qd)%Q) in *.
  unfold roundoff in *.
  split.
  - apply Qle_trans with ((1 - (1 # 9007199254740992)) * (10 * (lo * p)))%Q.
    + apply Qeq_le_sub. unfold p. ring.
    + apply Qle_trans with ((1 - (1 # 9007199254740992)) * (10 * qx'))%Q; [|exact S1].
      nra.
  - apply Qle_trans with ((1 + (1 # 9007199254740992)) * (10 * (hi * p)))%Q.
    + apply Qle_trans with ((1 + (1 # 9007199254740992)) * (10 * qx'))%Q; [exact S2|].
      nra.
    + apply Qeq_le_sub. unfold p. ring.
Qed.

Lemma exp_loop_S (fuel : nat) (k : Z) (d : float) :
  exp_loop (S fuel) k d
  = if ltb ten d then exp_loop fuel (k + 1) (div d ten) else Some (k, d).
Proof. reflexivity. Qed.

Lemma div10_iter_S (n : nat) (d : float) :
  div10_iter (S n) d = div10_iter n (div d ten).
Proof. reflexivity. Qed.

(** The loop on a positive normal float that is at least one: it ends,
    with a mantissa between one and ten. *)
Lemma exp_loop_spec (fuel : nat) :
  forall (k : Z) (m : positive) (e : Z),
    bounded prec emax m e = true -> -52 <= e ->
    (Z.to_nat (e + 52) < fuel)%nat ->
    let x := S754_finite false m e in
    exists n : nat,
      let d := div10_iter n x in
      exp_loop fuel k x = Some (k + Z.of_nat n, d)
      /\ leb d ten = true /\ leb one d = true
      /\ (forall i, (i < n)%nat -> ltb ten (div10_iter i x) = true)
      /\ reconstructs n d x.
Proof.
  induction fuel as [|fuel IH]; intros k m e Hb He Hf; cbv zeta; [lia|].
  rewrite exp_loop_S. destruct (ltb ten (S754_finite false m e)) eqn:Hgt.
  - destruct (gt_ten_inv m e Hgt) as [He1 He2].
    destruct (div_ten_step m e Hb He1) as (m' & e' & Hdiv & Hb' & Hk).
    destruct (bounded_normal m' e' Hb') as [Hm' _]; [lia|].
    assert (He' : -52 <= e' <= e - 3) by lia.
    destruct (IH (k + 1) m' e' Hb') as (n & Hrun & Hle & Hge & Hall & Hrec);
      [lia | lia |].
    exists (S n). rewrite div10_iter_S, Hdiv.
    split; [rewrite Hrun; f_equal; f_equal; lia|].
    split; [exact Hle|]. split; [exact Hge|]. split.
    + intros [|i] Hi; [exact Hgt|].
      rewrite div10_iter_S, Hdiv. apply Hall. lia.
    + apply reconstructs_step with (x' := S754_finite false m' e').
      * clear - Hge.
        destruct (div10_iter n (S754_finite false m' e')) as [| | |s d1 d2];
          try (simpl; lra).
        destruct s; [discriminate Hge|].
        apply Qlt_le_weak, Q_of_float_pos.
      * apply div_ten_accuracy; [lia|].
        destruct Hk as [(-> & _ & Hk) | (-> & Hk)]; [left|right]; split; lia.
      * exact Hrec.
  - exists O. change (div10_iter 0 (S754_finite false m e)) with (S754_finite false m e).
    split; [f_equal; f_equal; lia|].
    split; [apply le_ten_intro; exact Hgt|].
    destruct (bounded_normal m e Hb) as [Hm _]; [lia|].
    split; [apply ge_one_intro; lia|].
    split; [intros i Hi; lia|].
    unfold reconstructs. simpl qpow. split; apply Qeq_le_sub; ring.
Qed.

(** ** [double2expStr] *)

Lemma exp_loop_inf (fuel : nat) :
  forall k, exp_loop fuel k (S754_infinity false) = None.
Proof. induction fuel as [|fuel IH]; intros k; [reflexivity|apply IH]. Qed.

Lemma double2expStr_large_form (fuel : nat) (v : float) :
  valid v = true -> is_finite v = true -> ltb (abs v) ten = false ->
  (1024 <= fuel)%nat ->
  exists n : nat,
    let mantissa := div10_iter (S n) (abs v) in
    double2expStr fuel v
    = Some (sign_flag v ++ str mantissa ++ lit "E" ++ str_int (Z.of_nat (S n)))
    /\ leb one mantissa = true /\ leb mantissa ten = true
    /\ (forall i, (1 <= i <= n)%nat -> ltb ten (div10_iter i (abs v)) = true)
    /\ reconstructs (S n) mantissa (abs v).
Proof.
  intros Hv Hfin Hge Hfuel.
  destruct v as [s| | |s m e]; try discriminate.
  simpl abs in *. unfold valid in Hv. simpl in Hv.
  destruct (ge_ten_inv m e Hge) as [He1 He2].
  destruct (div_ten_step m e Hv He1) as (m1 & e1 & Hdiv & Hb1 & Hk).
  destruct (bounded_normal m e Hv) as [Hm Hmax]; [lia|].
  destruct (bounded_normal m1 e1 Hb1) as [Hm1 _]; [lia|].
  destruct (exp_loop_spec fuel 1 m1 e1 Hb1) as (n & Hrun & Hle & Hone & Hall & Hrec);
    [lia | lia |].
  exists n. cbv zeta in *. rewrite div10_iter_S, Hdiv.
  split.
  { unfold double2expStr. cbv zeta. simpl abs. rewrite Hge, Hdiv, Hrun.
    unfold sign_flag. do 5 f_equal. lia. }
  split; [exact Hone|]. split; [exact Hle|]. split.
  - intros [|i] Hi; [lia|]. rewrite div10_iter_S, Hdiv. apply Hall. lia.
  - apply reconstructs_step with (x' := S754_finite false m1 e1).
    + clear - Hone.
      destruct (div10_iter n (S754_finite false m1 e1)) as [| | |s d1 d2];
        try (simpl; lra).
      destruct s; [discriminate Hone|]. apply Qlt_le_weak, Q_of_float_pos.
    + apply div_ten_accuracy; [lia|].
      destruct Hk as [(-> & _ & Hk) | (-> & Hk)]; [left|right]; split; lia.
    + exact Hrec.
Qed.

Lemma double2expStr_minus15 (fuel : nat) :
  (1 <= fuel)%nat -> double2expStr fuel (of_Z (-15)) = Some (lit "-1.5E1").
Proof. destruct fuel as [|fuel]; [lia|]. intros _. reflexivity. Qed.

Lemma double2expStr_hundred (fuel : nat) :
  (1 <= fuel)%nat -> double2expStr fuel (of_Z 100) = Some (lit "10.0E1").
Proof. destruct fuel as [|fuel]; [lia|]. intros _. reflexivity. Qed.

(** The loop never leaves an infinite magnitude: [inf / 10] is [inf]. *)
Lemma double2expStr_inf_hangs (fuel : nat) :
  double2expStr fuel (S754_infinity false) = None.
Proof.
  unfold double2expStr. cbv zeta.
  change (ltb (abs (S754_infinity false)) ten) with false. cbv iota.
  change (div (abs (S754_infinity false)) ten) with (S754_infinity false).
  rewrite exp_loop_inf. reflexivity.
Qed.

(** C3.  For every finite float [v] with [|v| >= 10], [double2expStr]
    returns, and what it returns is the sign, the text of a mantissa, the
    letter E and the decimal text of an exponent [e >= 1].  The mantissa is
    [|v|] after [e] executions of [digit /= 10]; it lies between one and ten,
    ten included, because the loop goes on only while the quotient is
    greater than ten; and [mantissa * 10^e] is [|v|] up to a relative
    [2^-53] for each of the [e] divisions.  In particular [-15.0] gives
    [-1.5E1], and [100.0] gives [10.0E1]. *)
Theorem double2expStr_exponent_form :
  (forall (fuel : nat) (v : float),
      valid v = true -> is_finite v = true -> ltb (abs v) ten = false ->
      (1024 <= fuel)%nat ->
      exists n : nat,
        let mantissa := div10_iter (S n) (abs v) in
        double2expStr fuel v
        = Some (sign_flag v ++ str mantissa ++ lit "E"
                ++ str_int (Z.of_nat (S n)))
        /\ leb one mantissa = true /\ leb mantissa ten = true
        /\ (forall i, (1 <= i <= n)%nat ->
                      ltb ten (div10_iter i (abs v)) = true)
        /\ reconstructs (S n) mantissa (abs v))
  /\ (forall fuel : nat,
         (1 <= fuel)%nat ->
         double2expStr fuel (of_Z (-15)) = Some (lit "-1.5E1"))
  /\ (forall fuel : nat,
         (1 <= fuel)%nat ->
         double2expStr fuel (of_Z 100) = Some (lit "10.0E1")).
Proof.
  split; [exact double2expStr_large_form|].
  split; [exact double2expStr_minus15 | exact double2expStr_hundred].
Qed.

Lemma double2expStr_exponent_form_witness :
  exists n : nat,
    let mantissa := div10_iter (S n) (abs (of_Z 12345)) in
    double2expStr 1024 (of_Z 12345)
    = Some (sign_flag (of_Z 12345) ++ str mantissa ++ lit "E"
            ++ str_int (Z.of_nat (S n)))
    /\ leb one mantissa = true /\ leb mantissa ten = true
    /\ (forall i, (1 <= i <= n)%nat ->
                  ltb ten (div10_iter i (abs (of_Z 12345))) = true)
    /\ reconstructs (S n) mantissa (abs (of_Z 12345)).
Proof.
  apply (proj1 double2expStr_exponent_form 1024%nat (of_Z 12345));
    [reflexivity | reflexivity | reflexivity | lia].
Defined.

Lemma double2expStr_small (fuel : nat) (v : float) :
  ltb (abs v) ten = true -> double2expStr fuel v = Some (str (abs v)).
Proof. intros H. unfold double2expStr. cbv zeta. rewrite H. reflexivity. Qed.

(** C2.  Below ten the function returns the text of the magnitude alone:
    the sign it has worked out is not put in front.  [5.0] gives [5.0], and
    so does [-5.0], for which the claim has [-5.0]. *)
Theorem double2expStr_below_ten_drops_sign :
  (forall (fuel : nat) (v : float),
      ltb (abs v) ten = true -> double2expStr fuel v = Some (str (abs v)))
  /\ (forall fuel : nat, double2expStr fuel (of_Z 5) = Some (lit "5.0"))
  /\ (forall fuel : nat, double2expStr fuel (of_Z (-5)) = Some (lit "5.0"))
  /\ sign_flag (of_Z (-5)) ++ str (abs (of_Z (-5))) = lit "-5.0".
Proof.
  split; [exact double2expStr_small|].
  split; [reflexivity|]. split; reflexivity.
Qed.

Lemma double2expStr_below_ten_drops_sign_witness :
  double2expStr 0 (of_Z (-5)) = Some (str (abs (of_Z (-5)))).
Proof.
  apply (proj1 double2expStr_below_ten_drops_sign 0%nat (of_Z (-5))).
  reflexivity.
Defined.

(** ** When [double2expStr] returns *)

Lemma double2expStr_infinite_hangs (fuel : nat) (v : float) :
  is_infinite v = true -> double2expStr fuel v = None.
Proof.
  destruct v as [| s | |]; try discriminate. intros _.
  unfold double2expStr. cbv zeta.
  change (ltb (abs (S754_infinity s)) ten) with false. cbv iota.
  change (div (abs (S754_infinity s)) ten) with (S754_infinity false).
  rewrite exp_loop_inf. reflexivity.
Qed.

Lemma double2expStr_returns (fuel : nat) (v : float) :
  valid v = true -> is_infinite v = false -> (1024 <= fuel)%nat ->
  exists t, double2expStr fuel v = Some t.
Proof.
  intros Hv Hi Hf.
  destruct (ltb (abs v) ten) eqn:Hlt.
  - eexists. apply double2expStr_small. exact Hlt.
  - destruct v as [s|s| |s m e].
    + discriminate Hlt.
    + discriminate Hi.
    + destruct fuel as [|fuel]; [lia|]. eexists. reflexivity.
    + destruct (double2expStr_large_form fuel (S754_finite s m e) Hv eq_refl Hlt Hf)
        as (n & H & _).
      eexists. exact H.
Qed.

(** ** Runs of the methods *)

Lemma eqb_eq (s t : pystr) : Text.eqb s t = true <-> s = t.
Proof.
  unfold Text.eqb. destruct (list_eq_dec N.eq_dec s t); split; intros H;
    congruence.
Qed.

Lemma bind_ok {A B} (c : M A) (k : A -> M B) (w w' : world) (a : A) :
  c w = (Ok a, w') -> bind c k w = k a w'.
Proof. intros H. unfold bind. rewrite H. reflexivity. Qed.

Section Runs.

Variable tr : transport.

Lemma send_run (sendStr : pystr) (data : list byte) (w : world) :
  encode sendStr = Some data ->
  send tr sendStr w
  = (Ok tt,
     {| sent := sent w ++ [Bytes data];
        inbox := inbox w;
        console :=
          console w
          ++ [if Nat.eqb (tr_accept tr (List.length (sent w)) (Bytes data))
                         (List.length sendStr)
              then sent_line sendStr
              else lit "Command sent uncompletely"] |}).
Proof.
  intros H. unfold send. rewrite H. unfold bind, sock_send.
  destruct (Nat.eqb _ _); reflexivity.
Qed.

Lemma recv_run (bufsize : nat) (seg : list byte) (rest : list (list byte))
    (s : pystr) (w : world) :
  inbox w = seg :: rest -> decode (firstn bufsize seg) = Some s ->
  recv bufsize w
  = (Ok s,
     {| sent := sent w;
        inbox := match skipn bufsize seg with
                 | [] => rest
                 | more => more :: rest
                 end;
        console := console w |}).
Proof.
  intros Hi Hd. unfold recv, bind, sock_recv. rewrite Hi, Hd. reflexivity.
Qed.

(** The handshake on a connected socket, up to the test of the reply. *)
Lemma init_run (username password greeting recStr : pystr)
    (seg1 seg2 : list byte) (rest : list (list byte)) (w : world) :
  tr_connect tr = Connected ->
  encode (lit "open " ++ dquote ++ username ++ dquote) <> None ->
  encode password <> None ->
  inbox w = seg1 :: seg2 :: rest -> (List.length seg1 <= 1024)%nat ->
  decode seg1 = Some greeting -> decode (firstn 1024 seg2) = Some recStr ->
  exists w1,
    __init__ tr username password w
    = (if Text.eqb (prefix 5 recStr) (lit "ready")
       then print (lit "User authenticated.")
       else print (lit "User authentication error") ;; exitWin) w1.
Proof.
  intros Hc Hu Hp Hi Hl Hd1 Hd2.
  destruct (encode (lit "open " ++ dquote ++ username ++ dquote))
    as [u|] eqn:Eu; [|congruence].
  destruct (encode password) as [p|] eqn:Ep; [|congruence].
  unfold __init__. rewrite Hc.
  erewrite bind_ok by reflexivity.
  erewrite bind_ok by (apply send_run; exact Eu).
  erewrite bind_ok.
  2:{ apply recv_run with (seg := seg1) (rest := seg2 :: rest).
      - exact Hi.
      - rewrite firstn_all2 by exact Hl. exact Hd1. }
  erewrite bind_ok by reflexivity.
  erewrite bind_ok by (apply send_run; exact Ep).
  rewrite skipn_all2 by exact Hl.
  erewrite bind_ok.
  2:{ apply recv_run with (seg := seg2) (rest := rest);
        [reflexivity | exact Hd2]. }
  eexists. reflexivity.
Qed.

End Runs.

(** ** The session and the catalogue *)

(** C1.  On a connected socket, once the user name and the password are
    sent and both replies are read, the constructor ends authenticated
    exactly when the first five characters of the reply to the password are
    [ready]; with any other reply it reports the authentication error and
    leaves through [exitWin]. *)
Theorem handshake_ready_iff (tr : transport)
    (username password greeting recStr : pystr) (u p seg1 seg2 : list byte)
    (rest : list (list byte)) (w : world) :
  tr_connect tr = Connected ->
  encode (lit "open " ++ dquote ++ username ++ dquote) = Some u ->
  encode password = Some p ->
  inbox w = seg1 :: seg2 :: rest -> (List.length seg1 <= 1024)%nat ->
  decode seg1 = Some greeting -> decode (firstn 1024 seg2) = Some recStr ->
  let run := __init__ tr username password w in
  (authenticated run <-> prefix 5 recStr = lit "ready")
  /\ (prefix 5 recStr <> lit "ready" -> authentication_failed run).
Proof.
  intros Hc Hu Hp Hi Hl Hd1 Hd2 run.
  destruct (init_run tr username password greeting recStr seg1 seg2 rest w)
    as [w1 Hrun]; try assumption; try congruence.
  unfold run. rewrite Hrun. clear Hrun run.
  destruct (Text.eqb (prefix 5 recStr) (lit "ready")) eqn:E.
  - apply eqb_eq in E. split; [|congruence].
    split; [intros _; exact E|]. intros _. split; [reflexivity|].
    exists (console w1). reflexivity.
  - assert (Hne : prefix 5 recStr <> lit "ready").
    { intros H. apply eqb_eq in H. congruence. }
    split.
    + split; [|congruence]. intros [H _]. discriminate H.
    + intros _. split; [reflexivity|].
      exists (console w1). cbn. rewrite <- app_assoc. reflexivity.
Qed.

Lemma handshake_ready_iff_witness :
  authenticated
    (__init__ whole (lit "anonymous") (lit " ")
       {| sent := [];
          inbox := [list_byte_of_string "hello"; list_byte_of_string "ready"];
          console := [] |}).
Proof.
  apply (proj1 (handshake_ready_iff whole (lit "anonymous") (lit " ")
                  (lit "hello") (lit "ready") _ _
                  (list_byte_of_string "hello") (list_byte_of_string "ready")
                  []
                  {| sent := [];
                     inbox := [list_byte_of_string "hello";
                               list_byte_of_string "ready"];
                     console := [] |}
                  eq_refl eq_refl eq_refl eq_refl
                  ltac:(simpl; lia) eq_refl eq_refl)).
  reflexivity.
Defined.

Lemma encode_cp_length (c : codepoint) (b : list byte) :
  encode_cp c = Some b ->
  if (c <? 128)%N then List.length b = 1%nat else (2 <= List.length b)%nat.
Proof.
  unfold encode_cp.
  destruct (c <? 128)%N; [intros [= <-]; reflexivity|].
  destruct (c <? 2048)%N; [intros [= <-]; simpl; lia|].
  destruct (is_surrogate c); [discriminate|].
  destruct (c <? 65536)%N; [intros [= <-]; simpl; lia|].
  destruct (c <? 1114112)%N; [intros [= <-]; simpl; lia|discriminate].
Qed.

(** UTF-8 never has fewer bytes than the text has characters, and has more
    as soon as one character is not ASCII. *)
Lemma encode_length (s : pystr) :
  forall data, encode s = Some data ->
    (List.length s <= List.length data)%nat
    /\ (Exists (fun c => (128 <= c)%N) s ->
        (List.length s < List.length data)%nat).
Proof.
  induction s as [|c s IH]; intros data H.
  - injection H as <-. split; [simpl; lia|]. intros E. inversion E.
  - simpl in H. destruct (encode_cp c) as [b|] eqn:Ec; [|discriminate].
    destruct (encode s) as [bs|] eqn:Es; [|discriminate].
    injection H as <-. destruct (IH bs eq_refl) as [IH1 IH2].
    pose proof (encode_cp_length c b Ec) as Hb.
    rewrite length_app. simpl List.length.
    destruct (N.ltb_spec c 128) as [Hc|Hc].
    + split; [lia|]. intros E. inversion E as [? ? Hx|? ? Hx]; subst.
      * lia.
      * specialize (IH2 Hx). lia.
    + split; [lia|]. intros _. lia.
Qed.

(** What [socket.send] does with text, inside a method: the call raises
    and the world stays as it was. *)
Lemma sock_send_text (tr : transport) {B} (s : pystr) (k : nat -> M B)
    (w : world) :
  bind (sock_send tr (Text s)) k w = (Raise TypeError, w).
Proof. reflexivity. Qed.

(** [level] up to its first call of [socket.send]: the argument is built
    first, so the method hangs where [double2expStr] does, and otherwise
    stops on the text it hands to the socket. *)
Lemma level_run (tr : transport) (fuel : nat)
    (refLevel logScale subLog offsetLevel : float)
    (autoRefLevel autoSubScale : bool) (w : world) :
  level tr fuel refLevel logScale autoRefLevel subLog offsetLevel
        autoSubScale w
  = match double2expStr fuel logScale with
    | Some _ => (Raise TypeError, w)
    | None => (Hang, w)
    end.
Proof.
  unfold level, expStr.
  destruct (double2expStr fuel logScale); reflexivity.
Qed.

Lemma trace_run (tr : transport) (upper : pystr -> pystr)
    (channel : pystr) (write disp : bool) (calcC : Z) (w : world) :
  trace tr upper channel write disp calcC w
  = (Raise TypeError,
     {| sent := sent w;
        inbox := inbox w;
        console := if mem (upper channel) trace_channels then console w
                   else console w ++ [lit "Unsuitable channel"] |}).
Proof.
  unfold trace. cbv zeta.
  destruct (mem (upper channel) trace_channels); cbn [negb];
    [destruct w|]; reflexivity.
Qed.

Lemma saveFile_run (tr : transport) (upper : pystr -> pystr)
    (filename form channel memory : pystr) (w : world) :
  saveFile tr upper filename form channel memory w
  = (Raise TypeError,
     {| sent := sent w;
        inbox := inbox w;
        console := if mem (upper channel) save_channels then console w
                   else console w ++ [lit "Unsuitable channel"] |}).
Proof.
  unfold saveFile. cbv zeta.
  destruct (mem (upper channel) save_channels); cbn [negb];
    [destruct w|]; reflexivity.
Qed.

(** C4.  [sweep] sends nothing, whatever the mode.  A mode the list lets
    through, [AUTO] and [REPEAT] among them, stops the method with
    [TypeError] at the first command, which it hands to the socket as text;
    the world is left as it was.  A mode outside the list is reported as
    unsuitable.  [SINGLE] is outside the list: the two literals ['SINGLE']
    and ['3'] of the source are one string, [SINGLE3]. *)
Theorem sweep_accepted_mode_raises (tr : transport) (upper : pystr -> pystr)
    (sweepMode : pystr) (w : world) :
  (mem (upper sweepMode)
       [lit "AUTO"; lit "REPEAT"; lit "SINGLE3"; lit "2"; lit "1"] = true ->
   sweep tr upper sweepMode w = (Raise TypeError, w))
  /\ (mem (upper sweepMode)
          [lit "AUTO"; lit "REPEAT"; lit "SINGLE3"; lit "2"; lit "1"] = false ->
      sweep tr upper sweepMode w
      = (Ok tt,
         {| sent := sent w;
            inbox := inbox w;
            console := console w ++ [lit "unsuitable sweep mode"] |}))
  /\ mem (lit "SINGLE") sweep_modes = false
  /\ mem (lit "3") sweep_modes = false.
Proof.
  change [lit "AUTO"; lit "REPEAT"; lit "SINGLE3"; lit "2"; lit "1"]
    with sweep_modes.
  unfold sweep.
  split; [|split; [|split; reflexivity]]; intros H; rewrite H; reflexivity.
Qed.

Lemma sweep_accepted_mode_raises_witness :
  sweep whole upper_ascii (lit "auto") quiet = (Raise TypeError, quiet).
Proof.
  apply (proj1 (sweep_accepted_mode_raises whole upper_ascii (lit "auto") quiet)).
  reflexivity.
Defined.

(** The mode [SINGLE] itself is turned away: the list of [sweep] holds
    [SINGLE3] in its place. *)
Lemma sweep_single_is_rejected :
  sweep whole upper_ascii (lit "SINGLE") quiet
  = (Ok tt,
     {| sent := []; inbox := []; console := [lit "unsuitable sweep mode"] |}).
Proof. reflexivity. Qed.

(** C5.  [trace] never sends a trace-math command, for it never sends
    anything: the command that selects the channel is handed to the socket
    as text, and the method stops there with [TypeError], whatever [write],
    [disp] and [calcC] are.  With [calcC] 1, 2 or 3 the run is the run with
    [calcC = 0]. *)
Theorem trace_math_never_sent (tr : transport) (upper : pystr -> pystr)
    (channel : pystr) (write disp : bool) (calcC : Z) (w : world) :
  let run := trace tr upper channel write disp calcC w in
  fst run = Raise TypeError
  /\ sent (snd run) = sent w
  /\ run = trace tr upper channel write disp 0 w.
Proof.
  cbv zeta. rewrite !trace_run. repeat split.
Qed.

Lemma trace_math_never_sent_witness :
  fst (trace whole upper_ascii (lit "A") true true 1 quiet) = Raise TypeError
  /\ sent (snd (trace whole upper_ascii (lit "A") true true 1 quiet)) = [].
Proof.
  pose proof (trace_math_never_sent whole upper_ascii (lit "A") true true 1
                quiet) as H.
  cbv zeta in H. destruct H as (Hr & Hs & _).
  split; [exact Hr | exact Hs].
Defined.

(** C6.  [level] sends no reference-level command.  It never reads
    [refLevel]; and once [double2expStr(logScale)] has returned, which it
    does for every scale that is not infinite, the first command is handed
    to the socket as text and the method stops with [TypeError], the world
    left as it was. *)
Theorem level_raises_at_first_command (tr : transport) (fuel : nat)
    (refLevel logScale subLog offsetLevel : float)
    (autoRefLevel autoSubScale : bool) (w : world) :
  (1024 <= fuel)%nat -> valid logScale = true -> is_infinite logScale = false ->
  level tr fuel refLevel logScale autoRefLevel subLog offsetLevel
        autoSubScale w
  = (Raise TypeError, w)
  /\ forall refLevel',
       level tr fuel refLevel' logScale autoRefLevel subLog offsetLevel
             autoSubScale
       = level tr fuel refLevel logScale autoRefLevel subLog offsetLevel
               autoSubScale.
Proof.
  intros Hf Hv Hi. split; [|reflexivity].
  rewrite level_run.
  destruct (double2expStr_returns fuel logScale Hv Hi Hf) as [t Ht].
  rewrite Ht. reflexivity.
Qed.

Lemma level_raises_at_first_command_witness :
  level whole 1024 (of_Z (-10)) (of_Z 10) false (of_Z 5) (of_Z 0) true quiet
  = (Raise TypeError, quiet).
Proof.
  apply (proj1 (level_raises_at_first_command whole 1024 (of_Z (-10)) (of_Z 10)
                  (of_Z 5) (of_Z 0) false true quiet
                  ltac:(lia) eq_refl eq_refl)).
Defined.

(** C7.  [span(start, stop)] sends no command: the start-wavelength command
    is handed to the socket as text, [socket.send] raises [TypeError], and
    the stop-wavelength command is never built.  After [span(1520, 1600)]
    nothing has been written. *)
Theorem span_sends_nothing :
  (forall (tr : transport) (start stop : Z) (w : world),
      span tr start stop w = (Raise TypeError, w))
  /\ sent (snd (span whole 1520 1600 quiet)) = [].
Proof. split; reflexivity. Qed.

(** C8.  A channel outside the valid set is reported, and that is not what
    stops [trace] and [saveFile]: both go on to their first command, hand it
    to the socket as text, and stop there with [TypeError].  The console
    holds the line [Unsuitable channel] and no command has been sent. *)
Theorem invalid_channel_sends_nothing (tr : transport)
    (upper : pystr -> pystr) (channel filename form memory : pystr)
    (write disp : bool) (calcC : Z) (w : world) :
  (mem (upper channel) trace_channels = false ->
   trace tr upper channel write disp calcC w
   = (Raise TypeError,
      {| sent := sent w;
         inbox := inbox w;
         console := console w ++ [lit "Unsuitable channel"] |}))
  /\ (mem (upper channel) save_channels = false ->
      saveFile tr upper filename form channel memory w
      = (Raise TypeError,
         {| sent := sent w;
            inbox := inbox w;
            console := console w ++ [lit "Unsuitable channel"] |})).
Proof.
  split; intros H.
  - rewrite trace_run, H. reflexivity.
  - rewrite saveFile_run, H. reflexivity.
Qed.

Lemma invalid_channel_sends_nothing_witness :
  trace whole upper_ascii (lit "h") true true 0 quiet
  = (Raise TypeError,
     {| sent := []; inbox := []; console := [lit "Unsuitable channel"] |})
  /\ saveFile whole upper_ascii (lit "f") (lit "CSV") (lit "h") (lit "EXT") quiet
     = (Raise TypeError,
        {| sent := []; inbox := []; console := [lit "Unsuitable channel"] |}).
Proof.
  pose proof (invalid_channel_sends_nothing whole upper_ascii (lit "h")
                (lit "f") (lit "CSV") (lit "EXT") true true 0 quiet) as [Ht Hs].
  split; [exact (Ht eq_refl) | exact (Hs eq_refl)].
Defined.

(** C9.  A whole write and a short write of the same command return the
    same value, so nothing read from the result of [send] tells them
    apart. *)
Lemma send_result_tells_nothing :
  tr_accept whole 0 (Bytes (list_byte_of_string "*RST")) = 4%nat
  /\ tr_accept two_at_a_time 0 (Bytes (list_byte_of_string "*RST")) = 2%nat
  /\ ~ (exists indication : result unit -> bool,
           indication (fst (send whole (lit "*RST") quiet)) = true
           /\ indication (fst (send two_at_a_time (lit "*RST") quiet)) = false).
Proof.
  split; [reflexivity|]. split; [reflexivity|].
  intros (f & H1 & H2).
  change (fst (send whole (lit "*RST") quiet)) with (@Ok unit tt) in H1.
  change (fst (send two_at_a_time (lit "*RST") quiet)) with (@Ok unit tt) in H2.
  congruence.
Qed.

(** C9, as the code has it.  [send] returns [None] whatever the socket
    took, a short write included, and raises nothing for it; what it knows
    of the write goes to the console, as one line. *)
Theorem send_reports_on_console (tr : transport) (sendStr : pystr)
    (data : list byte) (w : world) :
  encode sendStr = Some data ->
  let strLen := tr_accept tr (List.length (sent w)) (Bytes data) in
  let run := send tr sendStr w in
  fst run = Ok tt
  /\ sent (snd run) = sent w ++ [Bytes data]
  /\ console (snd run)
     = console w ++ [if Nat.eqb strLen (List.length sendStr)
                     then sent_line sendStr
                     else lit "Command sent uncompletely"].
Proof.
  intros H. cbv zeta. rewrite (send_run tr sendStr data w H).
  repeat split; reflexivity.
Qed.

Lemma send_reports_on_console_witness :
  fst (send two_at_a_time (lit "*RST") quiet) = Ok tt
  /\ sent (snd (send two_at_a_time (lit "*RST") quiet))
     = [Bytes (list_byte_of_string "*RST")]
  /\ console (snd (send two_at_a_time (lit "*RST") quiet))
     = [lit "Command sent uncompletely"].
Proof.
  apply (send_reports_on_console two_at_a_time (lit "*RST")
           (list_byte_of_string "*RST") quiet).
  reflexivity.
Defined.

(** C10.  [send] compares the count of bytes the socket took with the
    number of characters of the text.  A text with a character outside
    ASCII has more bytes than characters, so even when the socket takes
    every byte the write is reported as incomplete. *)
Theorem send_counts_characters (tr : transport) (sendStr : pystr)
    (data : list byte) (w : world) :
  encode sendStr = Some data ->
  let strLen := tr_accept tr (List.length (sent w)) (Bytes data) in
  send tr sendStr w
  = (Ok tt,
     {| sent := sent w ++ [Bytes data];
        inbox := inbox w;
        console :=
          console w ++ [if Nat.eqb strLen (List.length sendStr)
                        then sent_line sendStr
                        else lit "Command sent uncompletely"] |})
  /\ (Exists (fun c => (128 <= c)%N) sendStr ->
      strLen = List.length data ->
      (List.length sendStr < List.length data)%nat
      /\ console (snd (send tr sendStr w))
         = console w ++ [lit "Command sent uncompletely"]).
Proof.
  intros He. cbv zeta. rewrite (send_run tr sendStr data w He).
  split; [reflexivity|]. intros Hx Ha.
  destruct (encode_length sendStr data He) as [_ Hlt]. specialize (Hlt Hx).
  split; [exact Hlt|]. cbn [snd console]. rewrite Ha.
  replace (Nat.eqb (List.length data) (List.length sendStr)) with false
    by (symmetry; apply Nat.eqb_neq; lia).
  reflexivity.
Qed.

Lemma send_counts_characters_witness :
  (List.length [233%N] < List.length [xc3; xa9])%nat
  /\ console (snd (send whole [233%N] quiet))
     = [lit "Command sent uncompletely"].
Proof.
  apply (proj2 (send_counts_characters whole [233%N] [xc3; xa9] quiet
                  eq_refl)).
  - constructor. lia.
  - reflexivity.
Defined.

(** * Further properties *)

Lemma to_N_byte_of_N (n : N) : (n < 256)%N -> Byte.to_N (byte_of_N n) = n.
Proof.
  intros H. unfold byte_of_N.
  destruct (Byte.of_N n) as [b|] eqn:E.
  - apply Byte.to_of_N. exact E.
  - apply Byte.of_N_None_iff in E. lia.
Qed.

Lemma is_cont_low (n : N) : (n < 64)%N -> is_cont (byte_of_N (128 + n)) = true.
Proof.
  intros H. unfold is_cont. rewrite to_N_byte_of_N by lia.
  apply andb_true_intro; split; [apply N.leb_le | apply N.ltb_lt]; lia.
Qed.

Lemma cont_low (n : N) : (n < 64)%N -> cont (byte_of_N (128 + n)) = n.
Proof. intros H. unfold cont. rewrite to_N_byte_of_N by lia. lia. Qed.

Lemma Some_inj {A} (a b : A) : Some a = Some b -> a = b.
Proof. congruence. Qed.

Lemma decode_cons (b0 : byte) (r0 : list byte) :
  decode (b0 :: r0)
  = let n0 := Byte.to_N b0 in
    if (n0 <? 128)%N then option_map (cons n0) (decode r0)
    else if (n0 <? 194)%N then None
    else if (n0 <? 224)%N then
      match r0 with
      | b1 :: r1 =>
          if is_cont b1
          then option_map (cons ((n0 - 192) * 64 + cont b1)%N) (decode r1)
          else None
      | _ => None
      end
    else if (n0 <? 240)%N then
      match r0 with
      | b1 :: b2 :: r2 =>
          let c := ((n0 - 224) * 4096 + cont b1 * 64 + cont b2)%N in
          if is_cont b1 && is_cont b2 && (2048 <=? c)%N
             && negb (is_surrogate c)
          then option_map (cons c) (decode r2)
          else None
      | _ => None
      end
    else if (n0 <? 245)%N then
      match r0 with
      | b1 :: b2 :: b3 :: r3 =>
          let c := ((n0 - 240) * 262144 + cont b1 * 4096
                    + cont b2 * 64 + cont b3)%N in
          if is_cont b1 && is_cont b2 && is_cont b3
             && (65536 <=? c)%N && (c <? 1114112)%N
          then option_map (cons c) (decode r3)
          else None
      | _ => None
      end
    else None.
Proof. reflexivity. Qed.

Section Bytes.
Local Open Scope N_scope.

Lemma split2 (c : N) :
  c < 2048 -> c / 64 < 32 /\ c mod 64 < 64 /\ c / 64 * 64 + c mod 64 = c.
Proof.
  intros H.
  pose proof (N.div_mod c 64 ltac:(discriminate)) as E.
  pose proof (N.mod_lt c 64 ltac:(discriminate)) as Hm.
  assert (Hd : c / 64 < 32) by (apply N.Div0.div_lt_upper_bound; exact H).
  set (q := c / 64) in *. set (r := c mod 64) in *. clearbody q r. lia.
Qed.

Lemma split3 (c : N) :
  c < 65536 ->
  c / 4096 < 16 /\ (c / 64) mod 64 < 64 /\ c mod 64 < 64
  /\ c / 4096 * 4096 + (c / 64) mod 64 * 64 + c mod 64 = c.
Proof.
  intros H.
  pose proof (N.div_mod c 64 ltac:(discriminate)) as E.
  pose proof (N.mod_lt c 64 ltac:(discriminate)) as Hm.
  pose proof (N.div_mod (c / 64) 64 ltac:(discriminate)) as E2.
  pose proof (N.mod_lt (c / 64) 64 ltac:(discriminate)) as Hm2.
  assert (Hd : c / 4096 < 16) by (apply N.Div0.div_lt_upper_bound; exact H).
  replace (c / 64 / 64) with (c / 4096) in E2 by (rewrite N.Div0.div_div; reflexivity).
  set (q := c / 64) in *. set (r := c mod 64) in *.
  set (q2 := c / 4096) in *. set (r2 := q mod 64) in *. clearbody q r q2 r2. lia.
Qed.

Lemma split4 (c : N) :
  c < 1114112 ->
  c / 262144 < 5 /\ (c / 4096) mod 64 < 64 /\ (c / 64) mod 64 < 64 /\ c mod 64 < 64
  /\ c / 262144 * 262144 + (c / 4096) mod 64 * 4096 + (c / 64) mod 64 * 64 + c mod 64 = c.
Proof.
  intros H.
  pose proof (N.div_mod c 64 ltac:(discriminate)) as E.
  pose proof (N.mod_lt c 64 ltac:(discriminate)) as Hm.
  pose proof (N.div_mod (c / 64) 64 ltac:(discriminate)) as E2.
  pose proof (N.mod_lt (c / 64) 64 ltac:(discriminate)) as Hm2.
  pose proof (N.div_mod (c / 4096) 64 ltac:(discriminate)) as E3.
  pose proof (N.mod_lt (c / 4096) 64 ltac:(discriminate)) as Hm3.
  assert (Hd : c / 262144 < 5) by (apply N.Div0.div_lt_upper_bound; lia).
  replace (c / 64 / 64) with (c / 4096) in E2 by (rewrite N.Div0.div_div; reflexivity).
  replace (c / 4096 / 64) with (c / 262144) in E3 by (rewrite N.Div0.div_div; reflexivity).
  set (q := c / 64) in *. set (r := c mod 64) in *.
  set (q2 := c / 4096) in *. set (r2 := q mod 64) in *.
  set (q3 := c / 262144) in *. set (r3 := q2 mod 64) in *.
  clearbody q r q2 r2 q3 r3. lia.
Qed.

Ltac nltb :=
  repeat match goal with
         | |- context [(?a <? ?b)] =>
             first [ replace (a <? b) with true by (symmetry; apply N.ltb_lt; lia)
                   | replace (a <? b) with false by (symmetry; apply N.ltb_ge; lia) ]
         | |- context [(?a <=? ?b)] =>
             first [ replace (a <=? b) with true by (symmetry; apply N.leb_le; lia)
                   | replace (a <=? b) with false by (symmetry; apply N.leb_gt; lia) ]
         end.

Lemma decode_1byte (c : N) (rest : list byte) :
  c < 128 ->
  decode (byte_of_N c :: rest) = option_map (cons c) (decode rest).
Proof.
  intros H. rewrite decode_cons. cbv zeta. rewrite to_N_byte_of_N by lia.
  nltb. reflexivity.
Qed.

Lemma decode_2bytes (a d : N) (rest : list byte) :
  2 <= a < 32 -> d < 64 ->
  decode (byte_of_N (192 + a) :: byte_of_N (128 + d) :: rest)
  = option_map (cons (a * 64 + d)) (decode rest).
Proof.
  intros Ha Hd. rewrite decode_cons. cbv zeta. rewrite to_N_byte_of_N by lia.
  nltb. rewrite is_cont_low, cont_low by assumption.
  replace (192 + a - 192) with a by lia. reflexivity.
Qed.

Lemma decode_3bytes (a b d : N) (rest : list byte) :
  a < 16 -> b < 64 -> d < 64 ->
  2048 <= a * 4096 + b * 64 + d ->
  is_surrogate (a * 4096 + b * 64 + d) = false ->
  decode (byte_of_N (224 + a) :: byte_of_N (128 + b) :: byte_of_N (128 + d)
          :: rest)
  = option_map (cons (a * 4096 + b * 64 + d)) (decode rest).
Proof.
  intros Ha Hb Hd Hlo Hs. rewrite decode_cons. cbv zeta.
  rewrite to_N_byte_of_N by lia. nltb.
  rewrite !is_cont_low, !cont_low by assumption.
  replace (224 + a - 224) with a by lia. rewrite Hs.
  replace (2048 <=? a * 4096 + b * 64 + d) with true
    by (symmetry; apply N.leb_le; exact Hlo).
  reflexivity.
Qed.

Lemma decode_4bytes (a b1 b2 d : N) (rest : list byte) :
  a < 5 -> b1 < 64 -> b2 < 64 -> d < 64 ->
  65536 <= a * 262144 + b1 * 4096 + b2 * 64 + d < 1114112 ->
  decode (byte_of_N (240 + a) :: byte_of_N (128 + b1) :: byte_of_N (128 + b2)
          :: byte_of_N (128 + d) :: rest)
  = option_map (cons (a * 262144 + b1 * 4096 + b2 * 64 + d)) (decode rest).
Proof.
  intros Ha Hb1 Hb2 Hd [Hlo Hhi]. rewrite decode_cons. cbv zeta.
  rewrite to_N_byte_of_N by lia. nltb.
  rewrite !is_cont_low, !cont_low by assumption.
  replace (240 + a - 240) with a by lia.
  replace (65536 <=? a * 262144 + b1 * 4096 + b2 * 64 + d) with true
    by (symmetry; apply N.leb_le; exact Hlo).
  replace (a * 262144 + b1 * 4096 + b2 * 64 + d <? 1114112) with true
    by (symmetry; apply N.ltb_lt; exact Hhi).
  reflexivity.
Qed.

(** Decoding what one code point encodes to gives the code point back. *)
Lemma decode_encode_cp (c : codepoint) (b rest : list byte) :
  encode_cp c = Some b ->
  decode (b ++ rest) = option_map (cons c) (decode rest).
Proof.
  unfold encode_cp.
  destruct (N.ltb_spec c 128) as [H1|H1].
  { intros E; apply Some_inj in E; subst b.
    rewrite <- !app_comm_cons, app_nil_l. apply decode_1byte. exact H1. }
  destruct (N.ltb_spec c 2048) as [H2|H2].
  { intros E; apply Some_inj in E; subst b.
    rewrite <- !app_comm_cons, app_nil_l.
    destruct (split2 c H2) as (Ha & Hd & Ec).
    assert (2 <= c / 64) by (apply N.div_le_lower_bound; [discriminate|exact H1]).
    rewrite decode_2bytes by (try split; assumption). rewrite Ec. reflexivity. }
  destruct (is_surrogate c) eqn:Hs; [discriminate|].
  destruct (N.ltb_spec c 65536) as [H3|H3].
  { intros E; apply Some_inj in E; subst b.
    rewrite <- !app_comm_cons, app_nil_l.
    destruct (split3 c H3) as (Ha & Hb & Hd & Ec).
    rewrite decode_3bytes; rewrite ?Ec; try assumption. reflexivity. }
  destruct (N.ltb_spec c 1114112) as [H4|H4]; [|discriminate].
  intros E; apply Some_inj in E; subst b.
  rewrite <- !app_comm_cons, app_nil_l.
  destruct (split4 c H4) as (Ha & Hb1 & Hb2 & Hd & Ec).
  rewrite decode_4bytes; rewrite ?Ec; try assumption; [reflexivity|].
  split; assumption.
Qed.

End Bytes.

Lemma decode_encode (s : pystr) :
  forall data, encode s = Some data -> decode data = Some s.
Proof.
  induction s as [|c s IH]; intros data H.
  - injection H as <-. reflexivity.
  - simpl in H. destruct (encode_cp c) as [b|] eqn:Ec; [|discriminate].
    destruct (encode s) as [bs|] eqn:Es; [|discriminate].
    injection H as <-. rewrite (decode_encode_cp c b bs Ec), (IH bs eq_refl).
    reflexivity.
Qed.

Lemma option_map_cons_Some {A} (c : A) (o : option (list A)) (s : list A) :
  option_map (cons c) o = Some s -> exists s', o = Some s' /\ s = c :: s'.
Proof.
  destruct o as [s'|]; simpl; intros H; [|discriminate].
  injection H as <-. exists s'. split; reflexivity.
Qed.

(** Decoding never yields more characters than there were bytes. *)
Lemma decode_length_le :
  forall (n : nat) (bs : list byte) (s : pystr),
    (List.length bs <= n)%nat -> decode bs = Some s ->
    (List.length s <= List.length bs)%nat.
Proof.
  induction n as [|n IH]; intros bs s Hn H.
  - destruct bs; [|simpl in Hn; lia]. injection H as <-. simpl. lia.
  - destruct bs as [|b0 r0]; [injection H as <-; simpl; lia|].
    rewrite decode_cons in H. cbv zeta in H. simpl in Hn.
    destruct (Byte.to_N b0 <? 128)%N.
    { apply option_map_cons_Some in H as (s' & H & ->).
      apply IH in H; simpl; lia. }
    destruct (Byte.to_N b0 <? 194)%N; [discriminate|].
    destruct (Byte.to_N b0 <? 224)%N.
    { destruct r0 as [|b1 r1]; [discriminate|].
      destruct (is_cont b1); [|discriminate].
      apply option_map_cons_Some in H as (s' & H & ->).
      simpl in Hn. apply IH in H; simpl; lia. }
    destruct (Byte.to_N b0 <? 240)%N.
    { destruct r0 as [|b1 [|b2 r2]]; try discriminate.
      match type of H with (if ?c then _ else _) = _ => destruct c end;
        [|discriminate].
      apply option_map_cons_Some in H as (s' & H & ->).
      simpl in Hn. apply IH in H; simpl; lia. }
    destruct (Byte.to_N b0 <? 245)%N; [|discriminate].
    destruct r0 as [|b1 [|b2 [|b3 r3]]]; try discriminate.
    match type of H with (if ?c then _ else _) = _ => destruct c end;
      [|discriminate].
    apply option_map_cons_Some in H as (s' & H & ->).
    simpl in Hn. apply IH in H; simpl; lia.
Qed.

Lemma encode_ascii (s : pystr) :
  ascii_text s -> encode s = Some (List.map byte_of_N s).
Proof.
  induction 1 as [|c s Hc Hs IH]; [reflexivity|].
  simpl. rewrite IH. unfold encode_cp.
  replace (c <? 128)%N with true by (symmetry; apply N.ltb_lt; exact Hc).
  reflexivity.
Qed.

Lemma encode_cp_None (c : codepoint) :
  encode_cp c = None <-> unencodable c.
Proof.
  unfold encode_cp, unencodable, is_surrogate.
  destruct (N.ltb_spec c 128); [split; [discriminate|intros [H0|H0]];
    [apply andb_prop in H0 as [H1 H2]; apply N.leb_le in H1; lia | lia]|].
  destruct (N.ltb_spec c 2048); [split; [discriminate|intros [H1|H1]];
    [apply andb_prop in H1 as [H2 H3]; apply N.leb_le in H2; lia | lia]|].
  destruct ((55296 <=? c)%N && (c <=? 57343)%N) eqn:Hs.
  { split; [intros _; left; reflexivity | reflexivity]. }
  destruct (N.ltb_spec c 65536); [split; [discriminate|intros [H2|H2]];
    [discriminate | lia]|].
  destruct (N.ltb_spec c 1114112); [split; [discriminate|intros [H3|H3]];
    [discriminate | lia]|].
  split; [intros _; right; assumption | reflexivity].
Qed.

Lemma encode_None (s : pystr) :
  encode s = None <-> Exists unencodable s.
Proof.
  induction s as [|c s IH]; simpl.
  - split; [discriminate | intros H; inversion H].
  - destruct (encode_cp c) as [b|] eqn:Ec.
    + destruct (encode s) as [bs|] eqn:Es.
      * split; [discriminate|]. intros H. inversion H as [? ? Hc|? ? Hs]; subst.
        -- apply encode_cp_None in Hc. congruence.
        -- apply IH in Hs. discriminate.
      * split; [|reflexivity]. intros _. apply Exists_cons_tl. apply IH. reflexivity.
    + split; [|reflexivity]. intros _. apply Exists_cons_hd.
      apply encode_cp_None. exact Ec.
Qed.

Lemma ascii_text_firstn (n : nat) (t : pystr) :
  ascii_text t -> ascii_text (firstn n t).
Proof.
  unfold ascii_text. intros H. revert n.
  induction H as [|c t Hc Ht IH]; intros [|n]; simpl; constructor; auto.
Qed.

Lemma decode_ascii (t : pystr) :
  ascii_text t -> decode (List.map byte_of_N t) = Some t.
Proof. intros H. apply decode_encode. apply encode_ascii. exact H. Qed.

Lemma decode_ascii_app (t : pystr) (r : list byte) :
  ascii_text t ->
  decode (List.map byte_of_N t ++ r) = option_map (app t) (decode r).
Proof.
  induction 1 as [|c t Hc Ht IH]; cbn [List.map app].
  - destruct (decode r); reflexivity.
  - rewrite decode_1byte by exact Hc. rewrite IH.
    destruct (decode r); reflexivity.
Qed.

Lemma decode_lone (b0 : byte) :
  (128 <= Byte.to_N b0)%N -> decode [b0] = None.
Proof.
  intros H. rewrite decode_cons. cbv zeta.
  replace (Byte.to_N b0 <? 128)%N with false by (symmetry; apply N.ltb_ge; exact H).
  destruct (Byte.to_N b0 <? 194)%N; [reflexivity|].
  destruct (Byte.to_N b0 <? 224)%N; [reflexivity|].
  destruct (Byte.to_N b0 <? 240)%N; [reflexivity|].
  destruct (Byte.to_N b0 <? 245)%N; reflexivity.
Qed.

Ltac absdiv :=
  repeat match goal with
         | H : context [(?a / ?b)%N] |- _ =>
             let q := fresh "q" in set (q := (a / b)%N) in *; clearbody q
         | |- context [(?a / ?b)%N] =>
             let q := fresh "q" in set (q := (a / b)%N) in *; clearbody q
         end.

(** A character outside ASCII takes a lead byte and at least one more. *)
Lemma encode_cp_lead (c : codepoint) (b : list byte) :
  (128 <= c)%N -> encode_cp c = Some b ->
  exists lead more,
    b = lead :: more /\ more <> [] /\ (128 <= Byte.to_N lead)%N.
Proof.
  intros Hc. unfold encode_cp.
  replace (c <? 128)%N with false by (symmetry; apply N.ltb_ge; exact Hc).
  destruct (N.ltb_spec c 2048) as [H2|H2].
  { intros E. apply Some_inj in E. subst b.
    destruct (split2 c H2) as (Ha & _ & _).
    do 2 eexists. split; [reflexivity|]. split; [discriminate|].
    rewrite to_N_byte_of_N; absdiv; lia. }
  destruct (is_surrogate c); [discriminate|].
  destruct (N.ltb_spec c 65536) as [H3|H3].
  { intros E. apply Some_inj in E. subst b.
    destruct (split3 c H3) as (Ha & _ & _).
    do 2 eexists. split; [reflexivity|]. split; [discriminate|].
    rewrite to_N_byte_of_N; absdiv; lia. }
  destruct (N.ltb_spec c 1114112) as [H4|H4]; [|discriminate].
  intros E. apply Some_inj in E. subst b.
  destruct (split4 c H4) as (Ha & _ & _).
  do 2 eexists. split; [reflexivity|]. split; [discriminate|].
  rewrite to_N_byte_of_N; absdiv; lia.
Qed.

Section SendRecv.

Variable tr : transport.

(** X1.  For text that is all ASCII, which every command of the catalogue
    is, [send] never fails to encode, writes one byte for each character,
    and prints the success line exactly when the socket took every byte. *)
Theorem send_ascii_report_is_exact (sendStr : pystr) (w : world) :
  ascii_text sendStr ->
  let data := List.map byte_of_N sendStr in
  let strLen := tr_accept tr (List.length (sent w)) (Bytes data) in
  send tr sendStr w
  = (Ok tt,
     {| sent := sent w ++ [Bytes data];
        inbox := inbox w;
        console :=
          console w ++ [if Nat.eqb strLen (List.length data)
                        then sent_line sendStr
                        else lit "Command sent uncompletely"] |}).
Proof.
  intros H. cbv zeta.
  rewrite (send_run tr sendStr _ w (encode_ascii sendStr H)).
  rewrite length_map. reflexivity.
Qed.

(** X2.  Text that holds a code point UTF-8 has no form for (a lone
    surrogate) makes [send] raise [UnicodeEncodeError] before it touches
    the socket or the console. *)
Theorem send_unencodable_raises (sendStr : pystr) (w : world) :
  Exists unencodable sendStr ->
  send tr sendStr w = (Raise UnicodeEncodeError, w).
Proof.
  intros H. apply encode_None in H. unfold send. rewrite H. reflexivity.
Qed.

(** X3.  What [recv] returns has at most [bufsize] characters; the call
    writes nothing and prints nothing, and leaves in place the bytes of the
    segment that did not fit. *)
Theorem recv_at_most_bufsize (bufsize : nat) (w w' : world) (s : pystr) :
  recv bufsize w = (Ok s, w') ->
  (List.length s <= bufsize)%nat
  /\ sent w' = sent w /\ console w' = console w
  /\ exists seg rest, inbox w = seg :: rest
       /\ inbox w' = match skipn bufsize seg with
                     | [] => rest
                     | more => more :: rest
                     end.
Proof.
  unfold recv, bind, sock_recv.
  destruct (inbox w) as [|seg rest] eqn:Hi; [discriminate|].
  destruct (decode (firstn bufsize seg)) as [t|] eqn:Hd; [|discriminate].
  intros H. injection H as <- <-.
  split.
  - apply (decode_length_le _ _ _ (le_n _)) in Hd.
    pose proof (length_firstn bufsize seg). lia.
  - cbn [sent console inbox]. repeat split. exists seg, rest. split; reflexivity.
Qed.

Theorem recv_without_data_times_out (bufsize : nat) (w : world) :
  inbox w = [] -> recv bufsize w = (Raise SocketTimeout, w).
Proof. intros H. unfold recv, bind, sock_recv. rewrite H. reflexivity. Qed.

(** X4.  [recv] decodes each read on its own: when the buffer ends inside
    a character of several bytes, the call raises [UnicodeDecodeError], and
    the bytes it had read are gone from the socket. *)
Theorem recv_cut_character_raises (t : pystr) (c : codepoint)
    (b : list byte) (rest : list (list byte)) (w : world) :
  ascii_text t -> (128 <= c)%N -> encode_cp c = Some b ->
  inbox w = (List.map byte_of_N t ++ b) :: rest ->
  recv (S (List.length t)) w
  = (Raise UnicodeDecodeError,
     {| sent := sent w; inbox := tl b :: rest; console := console w |}).
Proof.
  intros Ht Hc Eb Hi.
  destruct (encode_cp_lead c b Hc Eb) as (lead & more & -> & Hmore & Hlead).
  unfold recv, bind, sock_recv. rewrite Hi.
  assert (Hlen : List.length (List.map byte_of_N t) = List.length t)
    by apply length_map.
  replace (S (List.length t)) with (List.length (List.map byte_of_N t) + 1)%nat
    by lia.
  rewrite firstn_app_2, skipn_app.
  rewrite skipn_all2 by lia.
  replace (List.length (List.map byte_of_N t) + 1
           - List.length (List.map byte_of_N t))%nat with 1%nat by lia.
  cbn [firstn skipn app tl].
  rewrite decode_ascii_app by exact Ht. rewrite decode_lone by exact Hlead.
  cbn [option_map]. destruct more; [congruence|reflexivity].
Qed.

(** X5.  An ASCII reply longer than the buffer comes in pieces: [recv]
    returns its first [bufsize] characters, and the rest waits for the next
    call. *)
Theorem recv_splits_long_segment (bufsize : nat) (t : pystr)
    (rest : list (list byte)) (w : world) :
  ascii_text t -> (bufsize < List.length t)%nat ->
  inbox w = List.map byte_of_N t :: rest ->
  recv bufsize w
  = (Ok (firstn bufsize t),
     {| sent := sent w;
        inbox := List.map byte_of_N (skipn bufsize t) :: rest;
        console := console w |}).
Proof.
  intros Ht Hlen Hi.
  rewrite (recv_run bufsize (List.map byte_of_N t) rest (firstn bufsize t) w Hi).
  - rewrite skipn_map. unfold pystr, codepoint in *.
    destruct (skipn bufsize t) as [|c more] eqn:E; [|reflexivity].
    apply (f_equal (@List.length _)) in E. rewrite length_skipn in E.
    simpl in E. lia.
  - rewrite firstn_map. apply decode_ascii. apply ascii_text_firstn. exact Ht.
Qed.

(** X6.  What [send] writes, [recv] reads back: when the peer returns the
    bytes of a command and they fit the buffer, [recv] yields the text that
    was sent. *)
Theorem send_then_recv_echo (bufsize : nat) (s : pystr) (data : list byte)
    (rest : list (list byte)) (w : world) :
  encode s = Some data -> (List.length data <= bufsize)%nat ->
  inbox w = data :: rest ->
  let run := (send tr s ;; recv bufsize) w in
  fst run = Ok s
  /\ sent (snd run) = sent w ++ [Bytes data]
  /\ inbox (snd run) = rest.
Proof.
  intros He Hlen Hi. cbv zeta.
  erewrite bind_ok by (apply send_run; exact He).
  erewrite recv_run.
  - cbn [fst snd sent inbox]. rewrite skipn_all2 by exact Hlen.
    repeat split.
  - cbn [inbox]. exact Hi.
  - rewrite firstn_all2 by exact Hlen. apply decode_encode. exact He.
Qed.

End SendRecv.

Lemma print_run (line : pystr) (w : world) :
  print line w
  = (Ok tt, {| sent := sent w; inbox := inbox w;
               console := console w ++ [line] |}).
Proof. reflexivity. Qed.

Section Session.

Variable tr : transport.

(** X7.  When the connection cannot be made, the constructor prints the
    error for the kind of failure and the prompt of [exitWin], leaves with
    [SystemExit], and has neither written to the socket nor read from it. *)
Theorem init_connect_failure_exits (username password : pystr) (w : world) :
  tr_connect tr <> Connected ->
  __init__ tr username password w
  = (Raise SystemExit,
     {| sent := sent w;
        inbox := inbox w;
        console :=
          console w
          ++ [match tr_connect tr with
              | ConnectTimedOut =>
                  lit "ERROR: Cannot connect to the optical spectrum analyser"
              | _ =>
                  lit "Unexpected Error! Check the IP and port and the connection"
              end;
              lit "Enter any key to exit..."] |}).
Proof.
  intros H. unfold __init__.
  destruct (tr_connect tr); [congruence| |];
    unfold bind, exitWin, bind, print, raise; cbn [sent inbox console];
    rewrite <- app_assoc; reflexivity.
Qed.

(** The handshake up to the test of the reply, with the world it leaves. *)
Lemma init_run_world (username password greeting recStr : pystr)
    (u p seg1 seg2 : list byte) (rest : list (list byte)) (w : world) :
  tr_connect tr = Connected ->
  encode (open_command username) = Some u ->
  encode password = Some p ->
  inbox w = seg1 :: seg2 :: rest -> (List.length seg1 <= 1024)%nat ->
  decode seg1 = Some greeting -> decode (firstn 1024 seg2) = Some recStr ->
  __init__ tr username password w
  = (if Text.eqb (prefix 5 recStr) (lit "ready")
     then print (lit "User authenticated.")
     else print (lit "User authentication error") ;; exitWin)
      {| sent := sent w ++ [Bytes u; Bytes p];
         inbox := match skipn 1024 seg2 with
                  | [] => rest
                  | more => more :: rest
                  end;
         console :=
           console w
           ++ [lit "Successfully connected to the optical spectrum analyser";
               report (tr_accept tr (List.length (sent w)) (Bytes u))
                      (open_command username);
               greeting;
               report (tr_accept tr (S (List.length (sent w))) (Bytes p))
                      password] |}.
Proof.
  intros Hc Eu Ep Hi Hl Hd1 Hd2. unfold open_command in *.
  unfold __init__. rewrite Hc.
  erewrite bind_ok by reflexivity.
  erewrite bind_ok by (apply send_run; exact Eu).
  erewrite bind_ok.
  2:{ apply recv_run with (seg := seg1) (rest := seg2 :: rest).
      - exact Hi.
      - rewrite firstn_all2 by exact Hl. exact Hd1. }
  erewrite bind_ok by reflexivity.
  erewrite bind_ok by (apply send_run; exact Ep).
  rewrite skipn_all2 by exact Hl.
  erewrite bind_ok.
  2:{ apply recv_run with (seg := seg2) (rest := rest);
        [reflexivity | exact Hd2]. }
  cbn [print sent inbox console].
  rewrite <- !app_assoc. cbn [app].
  replace (List.length (sent w ++ [Bytes u])) with (S (List.length (sent w)))
    by (rewrite length_app; simpl; lia).
  reflexivity.
Qed.

(** X8.  On a connected socket the handshake writes exactly two payloads,
    the [open] command with the quoted user name and then the password as
    it is, whatever counts the socket returns for them: a short write is
    reported on the console and the handshake goes on. *)
Theorem init_wire_order (username password greeting recStr : pystr)
    (u p seg1 seg2 : list byte) (rest : list (list byte)) (w : world) :
  tr_connect tr = Connected ->
  encode (open_command username) = Some u ->
  encode password = Some p ->
  inbox w = seg1 :: seg2 :: rest -> (List.length seg1 <= 1024)%nat ->
  decode seg1 = Some greeting -> decode (firstn 1024 seg2) = Some recStr ->
  let run := __init__ tr username password w in
  sent (snd run) = sent w ++ [Bytes u; Bytes p]
  /\ exists verdict,
       console (snd run)
       = console w
         ++ [lit "Successfully connected to the optical spectrum analyser";
             report (tr_accept tr (List.length (sent w)) (Bytes u))
                    (open_command username);
             greeting;
             report (tr_accept tr (S (List.length (sent w))) (Bytes p))
                    password]
         ++ verdict.
Proof.
  intros Hc Eu Ep Hi Hl Hd1 Hd2. cbv zeta.
  rewrite (init_run_world username password greeting recStr u p seg1 seg2 rest w)
    by assumption.
  destruct (Text.eqb (prefix 5 recStr) (lit "ready")).
  - split; [reflexivity|]. exists [lit "User authenticated."].
    cbn [print snd console]. rewrite <- app_assoc. reflexivity.
  - split; [reflexivity|].
    exists [lit "User authentication error"; lit "Enter any key to exit..."].
    unfold bind, exitWin, bind, print, raise. cbn [snd console].
    rewrite <- !app_assoc. reflexivity.
Qed.

(** X9.  A reply to the password of fewer than five characters, the empty
    reply of a closed connection included, is an authentication failure. *)
Theorem init_short_reply_fails (username password greeting recStr : pystr)
    (u p seg1 seg2 : list byte) (rest : list (list byte)) (w : world) :
  tr_connect tr = Connected ->
  encode (open_command username) = Some u ->
  encode password = Some p ->
  inbox w = seg1 :: seg2 :: rest -> (List.length seg1 <= 1024)%nat ->
  decode seg1 = Some greeting -> decode (firstn 1024 seg2) = Some recStr ->
  (List.length recStr < 5)%nat ->
  authentication_failed (__init__ tr username password w).
Proof.
  intros Hc Eu Ep Hi Hl Hd1 Hd2 Hshort.
  rewrite (init_run_world username password greeting recStr u p seg1 seg2 rest w)
    by assumption.
  destruct (Text.eqb (prefix 5 recStr) (lit "ready")) eqn:E.
  - apply eqb_eq in E. apply (f_equal (@List.length _)) in E.
    unfold prefix in E. rewrite length_firstn in E.
    change (List.length (lit "ready")) with 5%nat in E. lia.
  - split; [reflexivity|]. eexists.
    unfold bind, exitWin, bind, print, raise. cbn [snd console].
    rewrite <- app_assoc. reflexivity.
Qed.

(** X10.  Only the connection attempt is guarded: when no greeting comes,
    or no reply to the password, the timeout of [recv] leaves the
    constructor as it is, after the [open] command alone or after both
    writes, and [exitWin] is not called. *)
Theorem init_missing_reply_times_out (username password : pystr)
    (u p : list byte) (w : world) :
  tr_connect tr = Connected ->
  encode (open_command username) = Some u ->
  encode password = Some p ->
  (inbox w = [] ->
   let run := __init__ tr username password w in
   fst run = Raise SocketTimeout /\ sent (snd run) = sent w ++ [Bytes u])
  /\ (forall seg1 greeting,
         inbox w = [seg1] -> (List.length seg1 <= 1024)%nat ->
         decode seg1 = Some greeting ->
         let run := __init__ tr username password w in
         fst run = Raise SocketTimeout
         /\ sent (snd run) = sent w ++ [Bytes u; Bytes p]).
Proof.
  intros Hc Eu Ep. unfold open_command in *. split.
  - intros Hi. cbv zeta. unfold __init__. rewrite Hc.
    erewrite bind_ok by reflexivity.
    erewrite bind_ok by (apply send_run; exact Eu).
    erewrite bind_raise by (apply recv_without_data_times_out; exact Hi).
    split; reflexivity.
  - intros seg1 greeting Hi Hl Hd. cbv zeta. unfold __init__. rewrite Hc.
    erewrite bind_ok by reflexivity.
    erewrite bind_ok by (apply send_run; exact Eu).
    erewrite bind_ok.
    2:{ apply recv_run with (seg := seg1) (rest := []).
        - exact Hi.
        - rewrite firstn_all2 by exact Hl. exact Hd. }
    erewrite bind_ok by reflexivity.
    erewrite bind_ok by (apply send_run; exact Ep).
    rewrite skipn_all2 by exact Hl.
    erewrite bind_raise by (apply recv_without_data_times_out; reflexivity).
    cbn [fst snd sent]. rewrite <- app_assoc. split; reflexivity.
Qed.

(** X11.  After a handshake that authenticates, [reset] adds the four bytes
    of [*RST] to what was written; after one that does not, the program has
    left and [reset] writes nothing. *)
Theorem init_then_reset (username password greeting recStr : pystr)
    (u p seg1 seg2 : list byte) (rest : list (list byte)) (w : world) :
  tr_connect tr = Connected ->
  encode (open_command username) = Some u ->
  encode password = Some p ->
  inbox w = seg1 :: seg2 :: rest -> (List.length seg1 <= 1024)%nat ->
  decode seg1 = Some greeting -> decode (firstn 1024 seg2) = Some recStr ->
  let run := (__init__ tr username password ;; reset tr) w in
  (prefix 5 recStr = lit "ready" ->
   fst run = Ok tt
   /\ sent (snd run)
      = sent w ++ [Bytes u; Bytes p; Bytes (list_byte_of_string "*RST")])
  /\ (prefix 5 recStr <> lit "ready" ->
      fst run = Raise SystemExit
      /\ sent (snd run) = sent w ++ [Bytes u; Bytes p]).
Proof.
  intros Hc Eu Ep Hi Hl Hd1 Hd2. cbv zeta. unfold bind.
  rewrite (init_run_world username password greeting recStr u p seg1 seg2 rest w)
    by assumption.
  destruct (Text.eqb (prefix 5 recStr) (lit "ready")) eqn:E.
  - apply eqb_eq in E. split; [|congruence]. intros _.
    rewrite !print_run. cbv iota beta. unfold reset.
    rewrite !(send_run tr (lit "*RST") (list_byte_of_string "*RST") _ eq_refl).
    cbn [fst snd sent]. rewrite <- app_assoc. split; reflexivity.
  - split.
    + intros H. apply eqb_eq in H. congruence.
    + intros _. split; reflexivity.
Qed.

End Session.

Section Catalogue.

Variables (tr : transport) (upper : pystr -> pystr).

(** X12.  [sweep], [span], [level], [trace] and [saveFile] never write to
    the socket and never read from it: on every input they leave what was
    sent and what is to be read as they were.  [span], [trace] and
    [saveFile] always end in [TypeError], [level] ends in [TypeError] or
    does not end, and [sweep] returns only when it has refused the mode. *)
Theorem catalogue_sends_nothing :
  (forall sweepMode w,
      let run := sweep tr upper sweepMode w in
      sent (snd run) = sent w /\ inbox (snd run) = inbox w
      /\ (fst run = Raise TypeError
          \/ fst run = Ok tt
             /\ console (snd run) = console w ++ [lit "unsuitable sweep mode"]))
  /\ (forall start stop w,
         let run := span tr start stop w in
         sent (snd run) = sent w /\ inbox (snd run) = inbox w
         /\ fst run = Raise TypeError)
  /\ (forall fuel refLevel logScale autoRefLevel subLog offsetLevel
             autoSubScale w,
         let run := level tr fuel refLevel logScale autoRefLevel subLog
                          offsetLevel autoSubScale w in
         sent (snd run) = sent w /\ inbox (snd run) = inbox w
         /\ (fst run = Raise TypeError \/ fst run = Hang))
  /\ (forall channel write disp calcC w,
         let run := trace tr upper channel write disp calcC w in
         sent (snd run) = sent w /\ inbox (snd run) = inbox w
         /\ fst run = Raise TypeError)
  /\ (forall filename form channel memory w,
         let run := saveFile tr upper filename form channel memory w in
         sent (snd run) = sent w /\ inbox (snd run) = inbox w
         /\ fst run = Raise TypeError).
Proof.
  split; [|split; [|split; [|split]]]; intros; subst run.
  - unfold sweep. destruct (mem (upper sweepMode) sweep_modes); cbv iota.
    + rewrite sock_send_text. cbn [fst snd]. auto.
    + unfold print. cbn [fst snd sent inbox console]. auto.
  - unfold span. rewrite sock_send_text. cbn [fst snd]. auto.
  - rewrite level_run. destruct (double2expStr fuel logScale);
      cbn [fst snd]; auto.
  - rewrite trace_run. cbn [fst snd sent inbox]. auto.
  - rewrite saveFile_run. cbn [fst snd sent inbox]. auto.
Qed.

End Catalogue.

(** X14.  [double2expStr] returns for every float but the two infinities,
    on which its loop never ends. *)
Theorem double2expStr_returns_iff_not_infinite (fuel : nat) (v : float) :
  valid v = true -> (1024 <= fuel)%nat ->
  (double2expStr fuel v = None <-> is_infinite v = true).
Proof.
  intros Hv Hf. split.
  - intros H. destruct (is_infinite v) eqn:Hi; [reflexivity|].
    destruct (double2expStr_returns fuel v Hv Hi Hf) as [t Ht]. congruence.
  - apply double2expStr_infinite_hangs.
Qed.

Lemma double2expStr_returns_iff_not_infinite_witness :
  double2expStr 1024 (S754_infinity true) = None <-> is_infinite (S754_infinity true) = true.
Proof.
  apply (double2expStr_returns_iff_not_infinite 1024 (S754_infinity true));
    [reflexivity | lia].
Defined.

(** X15.  For a positive argument of ten or more, negating the argument
    puts [-] in front of the same text. *)
Theorem double2expStr_negated (fuel : nat) (v : float) (t : pystr) :
  ltb zero v = true -> ltb v ten = false ->
  double2expStr fuel v = Some t ->
  double2expStr fuel (SFopp v) = Some (lit "-" ++ t).
Proof.
  intros Hpos Hge.
  destruct v as [s|s| |s m e]; try discriminate;
    destruct s; try discriminate.
  - rewrite double2expStr_infinite_hangs by reflexivity. discriminate.
  - unfold double2expStr. cbv zeta.
    change (abs (SFopp (S754_finite false m e))) with (S754_finite false m e).
    change (abs (S754_finite false m e)) with (S754_finite false m e).
    rewrite Hge.
    change (ltb (SFopp (S754_finite false m e)) zero) with true.
    change (ltb (S754_finite false m e) zero) with false. cbv iota.
    destruct (exp_loop fuel 1 (div (S754_finite false m e) ten)) as [[e' d]|];
      [|discriminate].
    intros H. injection H as <-. reflexivity.
Qed.

Lemma double2expStr_negated_witness :
  double2expStr 1024 (SFopp (of_Z 15)) = Some (lit "-" ++ lit "1.5E1").
Proof.
  apply (double2expStr_negated 1024 (of_Z 15) (lit "1.5E1")); reflexivity.
Defined.

Lemma Qpow2_ge_1 (k : Z) : 0 <= k -> (1 <= (2 # 1) ^ k)%Q.
Proof.
  intros Hk. pattern k. apply natlike_ind; [|clear k Hk|exact Hk].
  - apply Qle_refl.
  - intros k Hk IH. unfold Z.succ. rewrite Qpow2_shift.
    change ((2 # 1) ^ 1)%Q with (2 # 1)%Q. nra.
Qed.

Lemma Qpow2_le (a b : Z) : a <= b -> ((2 # 1) ^ a <= (2 # 1) ^ b)%Q.
Proof.
  intros H. replace b with (a + (b - a)) by lia. rewrite Qpow2_shift.
  pose proof (Qpow2_ge_1 (b - a) ltac:(lia)). pose proof (Qpow2_pos a). nra.
Qed.

Lemma bounded_mantissa (m : positive) (e : Z) :
  bounded prec emax m e = true -> Zpos m < 9007199254740992 /\ e <= 971.
Proof.
  unfold bounded, canonical_mantissa, fexp, SpecFloat.emin, prec, emax.
  intros H. apply andb_prop in H as [Hc Hb].
  apply Z.eqb_eq in Hc. apply Z.leb_le in Hb.
  pose proof (Zdigits2_bounds m) as B. unfold Zdigits2 in B.
  assert (Hd : Zpos (digits2_pos m) <= 53) by lia.
  split; [|lia].
  apply Z.lt_le_trans with (2 ^ Zpos (digits2_pos m)); [apply B|].
  change 9007199254740992 with (2 ^ 53). apply Z.pow_le_mono_r; lia.
Qed.

(** A valid float that is at least one stands for a rational that is. *)
Lemma Q_ge_one (m : positive) (e : Z) :
  bounded prec emax m e = true -> leb one (S754_finite false m e) = true ->
  (1 <= Q_of_float (S754_finite false m e))%Q.
Proof.
  intros Hb H. unfold leb, SFleb, SFcompare, one in H.
  assert (He : -52 <= e).
  { destruct (Z.compare_spec (-52) e); try lia; discriminate. }
  destruct (bounded_normal m e Hb) as [Hm _]; [lia|].
  unfold Q_of_float.
  pose proof (Qpow2_le (-52) e He) as Hp.
  assert (Hq : (inject_Z 4503599627370496 <= inject_Z (Zpos m))%Q)
    by (rewrite <- Zle_Qle; lia).
  change (inject_Z 4503599627370496) with 4503599627370496%Q in Hq.
  assert (E : ((2 # 1) ^ (-52) == 1 # 4503599627370496)%Q) by reflexivity.
  rewrite E in Hp.
  set (P := ((2 # 1) ^ e)%Q) in *. set (a := inject_Z (Zpos m)) in *.
  nra.
Qed.

Lemma Q_le_ten (m : positive) (e : Z) :
  bounded prec emax m e = true -> leb (S754_finite false m e) ten = true ->
  (Q_of_float (S754_finite false m e) <= 10)%Q.
Proof.
  intros Hb H. unfold leb, SFleb, SFcompare, ten in H.
  rewrite compare_cont_Z in H.
  destruct (bounded_mantissa m e Hb) as [Hm _].
  unfold Q_of_float.
  assert (Hq : (inject_Z (Zpos m) <= inject_Z 9007199254740992)%Q)
    by (rewrite <- Zle_Qle; lia).
  change (inject_Z 9007199254740992) with 9007199254740992%Q in Hq.
  assert (Hq0 : (inject_Z 0 <= inject_Z (Zpos m))%Q) by (rewrite <- Zle_Qle; lia).
  change (inject_Z 0) with 0%Q in Hq0.
  destruct (Z.compare_spec e (-49)) as [E|E|E]; try discriminate.
  - subst e. destruct (Z.compare_spec (Zpos m) 5629499534213120) as [L|L|L];
      try discriminate.
    + rewrite L. apply Qeq_le_sub. reflexivity.
    + assert (Hl : (inject_Z (Zpos m) <= inject_Z 5629499534213120)%Q)
        by (rewrite <- Zle_Qle; lia).
      change (inject_Z 5629499534213120) with 5629499534213120%Q in Hl.
      assert (Ep : ((2 # 1) ^ (-49) == 1 # 562949953421312)%Q) by reflexivity.
      rewrite Ep. set (a := inject_Z (Zpos m)) in *. lra.
  - pose proof (Qpow2_le e (-50) ltac:(lia)) as Hp.
    assert (Ep : ((2 # 1) ^ (-50) == 1 # 1125899906842624)%Q) by reflexivity.
    rewrite Ep in Hp. pose proof (Qpow2_pos e) as Hpos.
    set (P := ((2 # 1) ^ e)%Q) in *. set (a := inject_Z (Zpos m)) in *.
    nra.
Qed.

Lemma Q_lt_top (m : positive) (e : Z) :
  bounded prec emax m e = true ->
  (Q_of_float (S754_finite false m e) < (2 # 1) ^ 1024)%Q.
Proof.
  intros Hb. destruct (bounded_mantissa m e Hb) as [Hm He].
  unfold Q_of_float.
  assert (Hq : (inject_Z (Zpos m) < inject_Z 9007199254740992)%Q)
    by (rewrite <- Zlt_Qlt; lia).
  change (inject_Z 9007199254740992) with 9007199254740992%Q in Hq.
  pose proof (Qpow2_le e 971 He) as Hp. pose proof (Qpow2_pos e) as Hpos.
  assert (E : ((2 # 1) ^ 1024 == 9007199254740992 * (2 # 1) ^ 971)%Q).
  { change 1024 with (53 + 971). rewrite Qpow2_shift. reflexivity. }
  rewrite E. set (P := ((2 # 1) ^ e)%Q) in *. set (T := ((2 # 1) ^ 971)%Q) in *.
  set (a := inject_Z (Zpos m)) in *. nra.
Qed.

(** After the first division and [n] more, each taken because the quotient
    was above ten, the quotient is still a valid positive float. *)
Lemma div10_iter_valid :
  forall (n : nat) (m : positive) (e : Z),
    bounded prec emax m e = true -> -49 <= e ->
    (forall i, (1 <= i <= n)%nat ->
               ltb ten (div10_iter i (S754_finite false m e)) = true) ->
    exists m' e',
      div10_iter (S n) (S754_finite false m e) = S754_finite false m' e'
      /\ bounded prec emax m' e' = true.
Proof.
  induction n as [|n IH]; intros m e Hb He Hall.
  - destruct (div_ten_step m e Hb He) as (m1 & e1 & Hdiv & Hb1 & _).
    exists m1, e1. rewrite div10_iter_S, Hdiv. split; [reflexivity|exact Hb1].
  - destruct (div_ten_step m e Hb He) as (m1 & e1 & Hdiv & Hb1 & _).
    assert (Hgt : ltb ten (S754_finite false m1 e1) = true).
    { specialize (Hall 1%nat ltac:(lia)).
      rewrite div10_iter_S, Hdiv in Hall. exact Hall. }
    destruct (gt_ten_inv m1 e1 Hgt) as [He1 _].
    destruct (IH m1 e1 Hb1 He1) as (m' & e' & H' & Hb').
    + intros i Hi. specialize (Hall (S i) ltac:(lia)).
      rewrite div10_iter_S, Hdiv in Hall. exact Hall.
    + exists m', e'. rewrite div10_iter_S, Hdiv. split; assumption.
Qed.

Lemma qpow_pos (q : Q) (n : nat) : (0 < q)%Q -> (0 < qpow q n)%Q.
Proof. intros Hq. induction n; simpl; [reflexivity | nra]. Qed.

Lemma qpow_mul (a b : Q) (n : nat) :
  (qpow a n * qpow b n == qpow (a * b) n)%Q.
Proof.
  induction n as [|n IH]; simpl; [reflexivity|].
  rewrite <- IH. ring.
Qed.

Lemma qpow_mono (q : Q) (n k : nat) :
  (1 <= q)%Q -> (qpow q n <= qpow q (k + n))%Q.
Proof.
  intros Hq. induction k as [|k IH]; simpl; [apply Qle_refl|].
  pose proof (qpow_pos q n ltac:(lra)). nra.
Qed.

Lemma qpow_add (q : Q) (a b : nat) :
  (qpow q (a + b) == qpow q a * qpow q b)%Q.
Proof.
  induction a as [|a IH]; simpl; [ring|]. rewrite IH. ring.
Qed.

Lemma qpow_le_base (a b : Q) (n : nat) :
  (0 <= a)%Q -> (a <= b)%Q -> (qpow a n <= qpow b n)%Q.
Proof.
  intros Ha Hab. induction n as [|n IH]; simpl; [apply Qle_refl|].
  pose proof (qpow_nonneg a n Ha). nra.
Qed.

Lemma qpow_qpow (q : Q) (a b : nat) :
  (qpow (qpow q a) b == qpow q (b * a))%Q.
Proof.
  induction b as [|b IH]; simpl; [reflexivity|].
  rewrite qpow_add, IH. reflexivity.
Qed.

Lemma qpow_1024 (n : nat) :
  (qpow 1024 n == (2 # 1) ^ (10 * Z.of_nat n))%Q.
Proof.
  induction n as [|n IH]; [reflexivity|].
  replace (10 * Z.of_nat (S n)) with (10 + 10 * Z.of_nat n) by lia.
  rewrite Qpow2_shift. simpl qpow. rewrite IH. reflexivity.
Qed.

(** Lower bounds of the powers of [1953/2000], by repeated squaring. *)
Lemma qpow_product (t a b : Q) (n m : nat) :
  (0 <= a)%Q -> (0 <= b)%Q -> (a <= qpow t n)%Q -> (b <= qpow t m)%Q ->
  (a * b <= qpow t (n + m))%Q.
Proof. intros Ha Hb Hn Hm. rewrite qpow_add. nra. Qed.

Lemma small_power : (1 # 64 < qpow (1953 # 2000) 103)%Q.
Proof.
  set (t := (1953 # 2000)%Q).
  assert (h1 : (9765 # 10000 <= qpow t 1)%Q) by (unfold t; simpl; lra).
  assert (h2 : (9535 # 10000 <= qpow t 2)%Q).
  { pose proof (qpow_product t (9765 # 10000) (9765 # 10000) 1 1
                  ltac:(lra) ltac:(lra) h1 h1) as H.
    change (1 + 1)%nat with 2%nat in H. lra. }
  assert (h4 : (9091 # 10000 <= qpow t 4)%Q).
  { pose proof (qpow_product t (9535 # 10000) (9535 # 10000) 2 2
                  ltac:(lra) ltac:(lra) h2 h2) as H.
    change (2 + 2)%nat with 4%nat in H. lra. }
  assert (h8 : (8264 # 10000 <= qpow t 8)%Q).
  { pose proof (qpow_product t (9091 # 10000) (9091 # 10000) 4 4
                  ltac:(lra) ltac:(lra) h4 h4) as H.
    change (4 + 4)%nat with 8%nat in H. lra. }
  assert (h16 : (6829 # 10000 <= qpow t 16)%Q).
  { pose proof (qpow_product t (8264 # 10000) (8264 # 10000) 8 8
                  ltac:(lra) ltac:(lra) h8 h8) as H.
    change (8 + 8)%nat with 16%nat in H. lra. }
  assert (h32 : (4663 # 10000 <= qpow t 32)%Q).
  { pose proof (qpow_product t (6829 # 10000) (6829 # 10000) 16 16
                  ltac:(lra) ltac:(lra) h16 h16) as H.
    change (16 + 16)%nat with 32%nat in H. lra. }
  assert (h64 : (2174 # 10000 <= qpow t 64)%Q).
  { pose proof (qpow_product t (4663 # 10000) (4663 # 10000) 32 32
                  ltac:(lra) ltac:(lra) h32 h32) as H.
    change (32 + 32)%nat with 64%nat in H. lra. }
  assert (h96 : (1013 # 10000 <= qpow t 96)%Q).
  { pose proof (qpow_product t (2174 # 10000) (4663 # 10000) 64 32
                  ltac:(lra) ltac:(lra) h64 h32) as H.
    change (64 + 32)%nat with 96%nat in H. lra. }
  assert (h100 : (920 # 10000 <= qpow t 100)%Q).
  { pose proof (qpow_product t (1013 # 10000) (9091 # 10000) 96 4
                  ltac:(lra) ltac:(lra) h96 h4) as H.
    change (96 + 4)%nat with 100%nat in H. lra. }
  assert (h102 : (877 # 10000 <= qpow t 102)%Q).
  { pose proof (qpow_product t (920 # 10000) (9535 # 10000) 100 2
                  ltac:(lra) ltac:(lra) h100 h2) as H.
    change (100 + 2)%nat with 102%nat in H. lra. }
  pose proof (qpow_product t (877 # 10000) (9765 # 10000) 102 1
                ltac:(lra) ltac:(lra) h102 h1) as H.
  change (102 + 1)%nat with 103%nat in H. lra.
Qed.

Lemma past_the_top :
  ((2 # 1) ^ 1024 < qpow (10 * (1 - roundoff)) 309)%Q.
Proof.
  assert (E : (qpow (10 * (1 - roundoff)) 309
               == qpow (qpow (10 * (1 - roundoff)) 3) 103)%Q)
    by (rewrite qpow_qpow; reflexivity).
  rewrite E.
  assert (Hx : ((1953 # 2000) * 1024 <= qpow (10 * (1 - roundoff)) 3)%Q)
    by (unfold roundoff; simpl; lra).
  pose proof (qpow_le_base ((1953 # 2000) * 1024) _ 103 ltac:(lra) Hx) as Hp.
  rewrite <- qpow_mul in Hp. rewrite qpow_1024 in Hp.
  change (10 * Z.of_nat 103) with (1024 + 6) in Hp.
  rewrite Qpow2_shift in Hp.
  change ((2 # 1) ^ 6)%Q with 64%Q in Hp.
  pose proof small_power as Hs.
  pose proof (Qpower_0_lt (2 # 1) 1024 ltac:(reflexivity)) as Hpos.
  set (P := ((2 # 1) ^ 1024)%Q) in *.
  set (S := qpow (1953 # 2000) 103) in *.
  set (X := qpow (qpow (10 * (1 - roundoff)) 3) 103) in *.
  nra.
Qed.

(** X16.  For a finite [v] with [|v| >= 10] the printed exponent [e] is the
    decimal order of magnitude of [v], up to the rounding of the [e]
    divisions: [(1 - 2^-53)^e * 10^e <= |v| <= (1 + 2^-53)^e * 10^(e+1)];
    and [e] is at most 308. *)
Theorem double2expStr_exponent_is_magnitude (fuel : nat) (v : float) :
  valid v = true -> is_finite v = true -> ltb (abs v) ten = false ->
  (1024 <= fuel)%nat ->
  exists (e : nat) (mantissa : float),
    double2expStr fuel v
    = Some (sign_flag v ++ str mantissa ++ lit "E" ++ str_int (Z.of_nat e))
    /\ (1 <= e <= 308)%nat
    /\ (qpow (1 - roundoff) e * qpow 10 e <= Q_of_float (abs v))%Q
    /\ (Q_of_float (abs v) <= qpow (1 + roundoff) e * qpow 10 (S e))%Q.
Proof.
  intros Hv Hfin Hge Hfuel.
  destruct (double2expStr_large_form fuel v Hv Hfin Hge Hfuel)
    as (n & Hrun & Hone & Hten & Hall & Hlo & Hhi).
  destruct v as [s| | |s m e]; try discriminate.
  simpl abs in *. unfold valid in Hv. simpl in Hv.
  destruct (ge_ten_inv m e Hge) as [He _].
  destruct (div10_iter_valid n m e Hv He Hall) as (m' & e' & Hd & Hb').
  rewrite Hd in *.
  pose proof (Q_ge_one m' e' Hb' Hone) as Q1.
  pose proof (Q_le_ten m' e' Hb' Hten) as Q10.
  pose proof (Q_lt_top m e Hv) as Qtop.
  set (qd := Q_of_float (S754_finite false m' e')) in *.
  set (qv := Q_of_float (S754_finite false m e)) in *.
  assert (Plo : (0 < qpow (1 - roundoff) (S n))%Q)
    by (apply qpow_pos; unfold roundoff; lra).
  assert (Phi : (0 < qpow (1 + roundoff) (S n))%Q)
    by (apply qpow_pos; unfold roundoff; lra).
  assert (Pten : (0 < qpow 10 (S n))%Q) by (apply qpow_pos; lra).
  assert (Lo : (qpow (1 - roundoff) (S n) * qpow 10 (S n) <= qv)%Q).
  { apply Qle_trans with (qpow (1 - roundoff) (S n) * (qpow 10 (S n) * qd))%Q;
      [|exact Hlo].
    set (A := qpow (1 - roundoff) (S n)) in *. set (B := qpow 10 (S n)) in *.
    assert (H0 : (0 <= A * B)%Q) by nra. nra. }
  exists (S n), (S754_finite false m' e').
  split; [exact Hrun|]. split; [|split; [exact Lo|]].
  - split; [lia|].
    destruct (Nat.le_gt_cases (S n) 308) as [Hs|Hs]; [exact Hs|exfalso].
    rewrite qpow_mul in Lo.
    pose proof (qpow_mono ((1 - roundoff) * 10) 309 (S n - 309)
                  ltac:(unfold roundoff; lra)) as Hm.
    replace (S n - 309 + 309)%nat with (S n) in Hm by lia.
    pose proof past_the_top as Ht.
    assert (Eq10 : (qpow (10 * (1 - roundoff)) 309
                    == qpow ((1 - roundoff) * 10) 309)%Q).
    { rewrite <- !qpow_mul. ring. }
    rewrite Eq10 in Ht. lra.
  - apply Qle_trans with (qpow (1 + roundoff) (S n) * (qpow 10 (S n) * qd))%Q;
      [exact Hhi|].
    change (qpow 10 (S (S n))) with (10 * qpow 10 (S n))%Q.
    set (A := qpow (1 + roundoff) (S n)) in *. set (B := qpow 10 (S n)) in *.
    assert (H0 : (0 <= A * B)%Q) by nra. nra.
Qed.

Lemma double2expStr_exponent_is_magnitude_witness :
  exists (e : nat) (mantissa : float),
    double2expStr 1024 (of_Z (-12345))
    = Some (sign_flag (of_Z (-12345)) ++ str mantissa ++ lit "E"
            ++ str_int (Z.of_nat e))
    /\ (1 <= e <= 308)%nat
    /\ (qpow (1 - roundoff) e * qpow 10 e
        <= Q_of_float (abs (of_Z (-12345))))%Q
    /\ (Q_of_float (abs (of_Z (-12345)))
        <= qpow (1 + roundoff) e * qpow 10 (S e))%Q.
Proof.
  apply (double2expStr_exponent_is_magnitude 1024 (of_Z (-12345)));
    [reflexivity | reflexivity | reflexivity | lia].
Defined.

(** X18.  [level] builds the text of a command before it calls the socket:
    with an infinite [logScale] it never gets to the call, and hangs inside
    [double2expStr] with nothing sent and nothing printed, where every other
    scale ends in [TypeError]. *)
Theorem level_hangs_on_infinite (tr : transport) (fuel : nat)
    (refLevel logScale subLog offsetLevel : float)
    (autoRefLevel autoSubScale : bool) (w : world) :
  is_infinite logScale = true ->
  level tr fuel refLevel logScale autoRefLevel subLog offsetLevel
        autoSubScale w = (Hang, w).
Proof.
  intros Hi. rewrite level_run.
  rewrite (double2expStr_infinite_hangs fuel logScale Hi). reflexivity.
Qed.

Lemma send_ascii_report_is_exact_witness :
  send two_at_a_time (lit "*RST") quiet
  = (Ok tt,
     {| sent := [Bytes (list_byte_of_string "*RST")];
        inbox := [];
        console := [lit "Command sent uncompletely"] |}).
Proof.
  apply (send_ascii_report_is_exact two_at_a_time (lit "*RST") quiet).
  repeat constructor.
Defined.

Lemma send_unencodable_raises_witness :
  send whole [55296%N] quiet = (Raise UnicodeEncodeError, quiet).
Proof.
  apply (send_unencodable_raises whole [55296%N] quiet).
  constructor. left. reflexivity.
Defined.

Lemma recv_at_most_bufsize_witness :
  (List.length (lit "hel") <= 3)%nat.
Proof.
  apply (recv_at_most_bufsize 3 hello_world
           {| sent := []; inbox := [list_byte_of_string "lo"]; console := [] |}
           (lit "hel")).
  reflexivity.
Defined.

Lemma recv_cut_character_raises_witness :
  recv 3 {| sent := []; inbox := [[x6f; x6b; xc3; xa9]]; console := [] |}
  = (Raise UnicodeDecodeError,
     {| sent := []; inbox := [[xa9]]; console := [] |}).
Proof.
  apply (recv_cut_character_raises (lit "ok") 233%N [xc3; xa9] []
           {| sent := []; inbox := [[x6f; x6b; xc3; xa9]]; console := [] |}).
  - repeat constructor.
  - lia.
  - reflexivity.
  - reflexivity.
Defined.

Lemma recv_splits_long_segment_witness :
  recv 3 hello_world
  = (Ok (lit "hel"),
     {| sent := []; inbox := [list_byte_of_string "lo"]; console := [] |}).
Proof.
  apply (recv_splits_long_segment 3 (lit "hello") [] hello_world).
  - repeat constructor.
  - simpl. lia.
  - reflexivity.
Defined.

Lemma send_then_recv_echo_witness :
  fst ((send whole [114%N; 233%N] ;; recv 1024)
         {| sent := []; inbox := [[x72; xc3; xa9]]; console := [] |})
  = Ok [114%N; 233%N].
Proof.
  apply (send_then_recv_echo whole 1024 [114%N; 233%N] [x72; xc3; xa9] []
           {| sent := []; inbox := [[x72; xc3; xa9]]; console := [] |}).
  - reflexivity.
  - simpl. lia.
  - reflexivity.
Defined.

Lemma init_connect_failure_exits_witness :
  __init__ unreachable (lit "anonymous") (lit " ") quiet
  = (Raise SystemExit,
     {| sent := [];
        inbox := [];
        console :=
          [lit "ERROR: Cannot connect to the optical spectrum analyser";
           lit "Enter any key to exit..."] |}).
Proof.
  apply (init_connect_failure_exits unreachable (lit "anonymous") (lit " ") quiet).
  discriminate.
Defined.

Lemma init_wire_order_witness :
  sent (snd (__init__ two_at_a_time (lit "anonymous") (lit " ")
               (greeted "ready")))
  = [Bytes (list_byte_of_string "open " ++ [x22]
            ++ list_byte_of_string "anonymous" ++ [x22]);
     Bytes (list_byte_of_string " ")].
Proof.
  apply (init_wire_order two_at_a_time (lit "anonymous") (lit " ")
           (lit "hello") (lit "ready") _ _
           (list_byte_of_string "hello") (list_byte_of_string "ready") []
           (greeted "ready")
           eq_refl eq_refl eq_refl eq_refl ltac:(simpl; lia) eq_refl eq_refl).
Defined.

Lemma init_short_reply_fails_witness :
  authentication_failed
    (__init__ whole (lit "anonymous") (lit " ")
       {| sent := []; inbox := [list_byte_of_string "hello"; []];
          console := [] |}).
Proof.
  apply (init_short_reply_fails whole (lit "anonymous") (lit " ")
           (lit "hello") [] _ _ (list_byte_of_string "hello") [] []
           {| sent := []; inbox := [list_byte_of_string "hello"; []];
              console := [] |}
           eq_refl eq_refl eq_refl eq_refl ltac:(simpl; lia) eq_refl eq_refl).
  simpl. lia.
Defined.

Lemma init_missing_reply_times_out_witness :
  fst (__init__ whole (lit "anonymous") (lit " ") quiet) = Raise SocketTimeout.
Proof.
  apply (proj1 (init_missing_reply_times_out whole (lit "anonymous") (lit " ")
                  _ _ quiet eq_refl eq_refl eq_refl) eq_refl).
Defined.

Lemma init_then_reset_witness :
  fst ((__init__ whole (lit "anonymous") (lit " ") ;; reset whole)
         (greeted "ready")) = Ok tt
  /\ sent (snd ((__init__ whole (lit "anonymous") (lit " ") ;; reset whole)
                  (greeted "ready")))
     = [Bytes (list_byte_of_string "open " ++ [x22]
               ++ list_byte_of_string "anonymous" ++ [x22]);
        Bytes (list_byte_of_string " ");
        Bytes (list_byte_of_string "*RST")].
Proof.
  apply (proj1 (init_then_reset whole (lit "anonymous") (lit " ")
                  (lit "hello") (lit "ready") _ _
                  (list_byte_of_string "hello") (list_byte_of_string "ready") []
                  (greeted "ready")
                  eq_refl eq_refl eq_refl eq_refl ltac:(simpl; lia)
                  eq_refl eq_refl)).
  reflexivity.
Defined.

Lemma level_hangs_on_infinite_witness :
  level whole 1024 (of_Z (-10)) (S754_infinity false) false (of_Z 5) (of_Z 0)
        true quiet = (Hang, quiet).
Proof.
  apply (level_hangs_on_infinite whole 1024 (of_Z (-10)) (S754_infinity false)
           (of_Z 5) (of_Z 0) false true quiet).
  reflexivity.
Defined.
